(** * Model listing utilities: query-parameter codec, filter readers and
      paginated fetch hooks

    Shallow embedding of [src/components/Model/model.utils.ts].

    The file is glue between four collaborators that are not part of the
    module itself: the schema-validation library (zod), the router
    (next/router), the remote-procedure client (trpc over react-query)
    and the client-side filter store.  Each collaborator is modelled by
    the small part of its behaviour the module relies on; the module's
    own functions are transcribed one to one. *)

From stdpp Require Import gmap strings list fin_maps.
From Stdlib Require Import ZArith Ascii.

Local Open Scope string_scope.
Local Open Scope list_scope.

(** ** JavaScript values

    The values that can occur in a router query, in a filter store slice
    or as a pagination cursor.  Numbers are integers here (cursors and
    offsets); arrays are the string arrays a repeated query key yields. *)

Inductive JsValue : Type :=
  | JsUndefined
  | JsNull
  | JsBool (b : bool)
  | JsNumber (n : Z)
  | JsString (s : string)
  | JsArray (xs : list string).

#[global] Instance JsValue_eq_dec : EqDecision JsValue.
Proof. solve_decision. Defined.

(** A plain object used as a dictionary: own enumerable string keys. *)
Abbreviation JsObject := (gmap string JsValue).

(** [obj[key]]: reading a key that is not there gives [undefined]. *)
Definition getProp (obj : JsObject) (key : string) : JsValue :=
  default JsUndefined (obj !! key).

(** [key in obj] *)
Definition hasProp (obj : JsObject) (key : string) : bool :=
  bool_decide (is_Some (obj !! key)).

(** [a === b] on the values above.  Arrays are compared by identity in
    JavaScript, so an array is never strictly equal to a primitive. *)
Definition strictEquals (a b : JsValue) : bool :=
  match a, b with
  | JsUndefined, JsUndefined => true
  | JsNull, JsNull => true
  | JsBool x, JsBool y => bool_decide (x = y)
  | JsNumber x, JsNumber y => bool_decide (x = y)
  | JsString x, JsString y => bool_decide (x = y)
  | _, _ => false
  end.

(** [{...a, ...b}]: the keys of [b] override those of [a]. *)
Definition objectSpread (a b : JsObject) : JsObject := b ∪ a.

(** [Array.prototype.flatMap]: the callback's arrays are appended in
    iteration order, one level deep. *)
Fixpoint flatMap {A B : Type} (callback : A → list B) (xs : list A) : list B :=
  match xs with
  | [] => []
  | x :: rest => callback x ++ flatMap callback rest
  end.

(** ** [~/utils/string-helpers] *)

Module StringHelpers.

Definition isUpper (c : ascii) : bool :=
  (65 <=? nat_of_ascii c)%nat && (nat_of_ascii c <=? 90)%nat.

Definition isLower (c : ascii) : bool :=
  (97 <=? nat_of_ascii c)%nat && (nat_of_ascii c <=? 122)%nat.

Definition isDigit (c : ascii) : bool :=
  (48 <=? nat_of_ascii c)%nat && (nat_of_ascii c <=? 57)%nat.

(** Modelled from the spec: the delimiters that the delimiter-consistent
    form makes uniform, taken to be the blank and the hyphen. *)
Definition isDelimiter (c : ascii) : bool :=
  bool_decide (c = " "%char) || bool_decide (c = "-"%char).

(** Modelled from the spec: what one character of the input becomes in
    a URL-safe, lowercase, delimiter-consistent form.  A letter is
    lowered, a digit or an underscore stays, a delimiter becomes the
    underscore, and any other character is dropped. *)
Definition slugChar (c : ascii) : option ascii :=
  if isUpper c then Some (ascii_of_nat (nat_of_ascii c + 32))
  else if isLower c || isDigit c || bool_decide (c = "_"%char) then Some c
  else if isDelimiter c then Some "_"%char
  else None.

(** Character-wise normalisation of a string by [norm]. *)
Fixpoint normalise (norm : ascii → option ascii) (str : string) : string :=
  match str with
  | EmptyString => EmptyString
  | String c rest =>
      match norm c with
      | Some c' => String c' (normalise norm rest)
      | None => normalise norm rest
      end
  end.

(** Modelled from the spec: [postgresSlugify] of
    [~/utils/string-helpers] is not among the sources.  The spec calls
    it the normalisation of a string into a URL-safe, lowercase,
    delimiter-consistent form; the empty string stays empty. *)
Definition postgresSlugify (str : string) : string :=
  normalise slugChar str.

End StringHelpers.

(** ** [~/utils/object-helpers] *)

Module ObjectHelpers.

(** Modelled from the spec: the emptiness predicate of [removeEmpty].
    The spec fixes it on [undefined], on the empty string and on a
    non-empty string and leaves [null], [0] and empty containers open,
    so it is a parameter of the development. *)
Class Emptiness : Type := isEmpty : JsValue → bool.

(** Modelled from the spec: [removeEmpty] of [~/utils/object-helpers]
    is not among the sources.  The spec has it return the object with
    all empty-valued fields removed, without validation and without
    side effects. *)
Definition removeEmpty `{Emptiness} (obj : JsObject) : JsObject :=
  filter (λ entry, isEmpty entry.2 = false) obj.

End ObjectHelpers.

(** ** The schema-validation library *)

Module Zod.

Inductive ParseReturnType (Output : Type) : Type :=
  | OK (value : Output)
  | INVALID.
Arguments OK {Output} _.
Arguments INVALID {Output}.

(** A schema is its [_parse] function. *)
Definition ZodType (Output : Type) : Type := JsValue → ParseReturnType Output.

Definition z_string : ZodType string :=
  λ input, match input with JsString s => OK s | _ => INVALID end.

Definition z_boolean : ZodType bool :=
  λ input, match input with JsBool b => OK b | _ => INVALID end.

(** [z.enum([...])]: one of the listed strings. *)
Definition z_enum (values : list string) : ZodType string :=
  λ input,
    match input with
    | JsString s => if decide (s ∈ values) then OK s else INVALID
    | _ => INVALID
    end.

(** [z.nativeEnum(E)] for a string enumeration [E], given by its
    values. *)
Definition z_nativeEnum (values : list string) : ZodType string :=
  λ input,
    match input with
    | JsString s => if decide (s ∈ values) then OK s else INVALID
    | _ => INVALID
    end.

(** [z.preprocess(fn, schema)]: [fn] runs on the raw input first. *)
Definition z_preprocess {Output : Type} (fn : JsValue → JsValue)
    (schema : ZodType Output) : ZodType Output :=
  λ input, schema (fn input).

(** [schema.transform(fn)]: [fn] runs on the output of a valid parse. *)
Definition transform {A B : Type} (schema : ZodType A) (fn : A → B) : ZodType B :=
  λ input,
    match schema input with
    | OK a => OK (fn a)
    | INVALID => INVALID
    end.

(** Outputs as they sit in a parsed object. *)
Class ToJs (A : Type) : Type := toJs : A → JsValue.
#[global] Instance string_ToJs : ToJs string := JsString.
#[global] Instance bool_ToJs : ToJs bool := JsBool.
#[global] Instance JsValue_ToJs : ToJs JsValue := λ v, v.

Definition ZodTypeAny : Type := ZodType JsValue.

Definition anyType {A : Type} `{ToJs A} (schema : ZodType A) : ZodTypeAny :=
  transform schema toJs.

(** [ZodOptional]: [undefined] is accepted as it is, anything else goes
    to the inner schema. *)
Definition optional (innerType : ZodTypeAny) : ZodTypeAny :=
  λ input,
    match input with
    | JsUndefined => OK JsUndefined
    | _ => innerType input
    end.

(** The shape of [z.object({...})]: the keys in source order. *)
Definition ZodRawShape : Type := list (string * ZodTypeAny).

(** [shape[key]] *)
Fixpoint shapeLookup (shape : ZodRawShape) (key : string) : option ZodTypeAny :=
  match shape with
  | [] => None
  | (k, schema) :: rest =>
      if decide (k = key) then Some schema else shapeLookup rest key
  end.

(** [.partial()]: every field becomes optional. *)
Definition partial (shape : ZodRawShape) : ZodRawShape :=
  map (λ field, (field.1, optional field.2)) shape.

(** Assignment of one key: an existing key keeps its place. *)
Fixpoint setKey (key : string) (schema : ZodTypeAny) (shape : ZodRawShape)
    : ZodRawShape :=
  match shape with
  | [] => [(key, schema)]
  | (k, s) :: rest =>
      if decide (k = key) then (key, schema) :: rest
      else (k, s) :: setKey key schema rest
  end.

(** [.extend(augmentation)]: [{ ...shape, ...augmentation }]. *)
Definition extend (shape augmentation : ZodRawShape) : ZodRawShape :=
  foldl (λ acc field, setKey field.1 field.2 acc) shape augmentation.

(** One entry of the object parser's work list. *)
Record ParsePair : Type := mkParsePair {
  pair_key : string;
  pair_value : ParseReturnType JsValue;
  pair_alwaysSet : bool
}.

(** Every key of the shape is parsed, a key that is absent from the
    data as [undefined]; keys outside the shape are stripped. *)
Definition parsePairs (shape : ZodRawShape) (data : JsObject) : list ParsePair :=
  map (λ field, mkParsePair field.1 (field.2 (getProp data field.1))
                            (hasProp data field.1))
      shape.

(** [ParseStatus.mergeObjectSync]: one invalid value aborts the object;
    a value is written when it is defined or its key was in the data. *)
Fixpoint mergeObjectSync (pairs : list ParsePair) (finalObject : JsObject)
    : ParseReturnType JsObject :=
  match pairs with
  | [] => OK finalObject
  | entry :: rest =>
      match pair_value entry with
      | INVALID => INVALID
      | OK value =>
          mergeObjectSync rest
            (if negb (strictEquals value JsUndefined) || pair_alwaysSet entry
             then <[pair_key entry := value]> finalObject
             else finalObject)
      end
  end.

Definition parseObject (shape : ZodRawShape) (data : JsObject)
    : ParseReturnType JsObject :=
  mergeObjectSync (parsePairs shape data) ∅.

Inductive SafeParseReturnType : Type :=
  | SafeParseSuccess (data : JsObject)
  | SafeParseError.

Definition success (result : SafeParseReturnType) : bool :=
  match result with
  | SafeParseSuccess _ => true
  | SafeParseError => false
  end.

Definition safeParse (shape : ZodRawShape) (data : JsObject) : SafeParseReturnType :=
  match parseObject shape data with
  | OK parsed => SafeParseSuccess parsed
  | INVALID => SafeParseError
  end.

End Zod.

(** ** The router *)

Module Router.

Record Url : Type := mkUrl {
  url_pathname : string;
  url_query : JsObject
}.

Record TransitionOptions : Type := mkTransitionOptions {
  shallow : bool
}.

(** What [useRouter()] exposes of the current location. *)
Record NextRouter : Type := mkNextRouter {
  pathname : string;
  query : JsObject
}.

(** [router.replace(url, as, options)]: the location becomes [url]
    without a new history entry.  The query object is kept as it was
    given; its serialisation into the address bar is the router's. *)
Definition replace (url : Url) (as_ : option Url) (options : TransitionOptions)
    (router : NextRouter) : NextRouter :=
  {| pathname := url_pathname url; query := url_query url |}.

End Router.

(** ** The filter store *)

Module Filters.

(** The two slices of the store that the readers select. *)
Record FiltersState : Type := mkFiltersState {
  models : JsObject;
  apps : JsObject
}.

(** [useFiltersContext(selector)] against the current store. *)
Definition useFiltersContext {A : Type} (store : FiltersState)
    (selector : FiltersState → A) : A :=
  selector store.

End Filters.

(** ** The remote-procedure client *)

Module Trpc.

Section Pages.
Context {Item : Type}.

(** One page of a list endpoint. *)
Record Page : Type := mkPage {
  items : list Item;
  nextCursor : JsValue
}.

(** An entry of [data.pages]: a loaded page, or a falsy hole. *)
Inductive PageSlot : Type :=
  | PageUndefined
  | PageNull
  | PageLoaded (page : Page).

(** [!!x ? f(x) : e]: only a loaded page is truthy. *)
Definition ifTruthy {A : Type} (x : PageSlot) (f : Page → A) (e : A) : A :=
  match x with
  | PageLoaded page => f page
  | PageUndefined | PageNull => e
  end.

(** The [data] of an infinite query. *)
Record InfiniteData : Type := mkInfiniteData {
  pages : list PageSlot;
  pageParams : list JsValue
}.

Inductive Procedure : Type :=
  | model_getAll
  | model_getAllAppsOnly
  | model_getAllModelsOnly.

(** The option object handed to [useInfiniteQuery]. *)
Record InfiniteQueryOptions : Type := mkInfiniteQueryOptions {
  getNextPageParam : PageSlot → JsValue;
  getPreviousPageParam : PageSlot → JsValue;
  skipBatch : bool;
  keepPreviousData : option bool;
  enabled : option bool
}.

(** A call [trpc.model.<procedure>.useInfiniteQuery(input, options)]. *)
Record InfiniteQueryCall : Type := mkInfiniteQueryCall {
  procedure : Procedure;
  input : JsObject;
  options : InfiniteQueryOptions
}.

(** What the client hands back: [data] and the remaining status fields. *)
Record QueryResult (Rest : Type) : Type := mkQueryResult {
  data : option InfiniteData;
  rest : Rest
}.

(** The client calls [getNextPageParam] on the last element of the
    loaded pages and [getPreviousPageParam] on the first; an empty
    array gives [undefined] in both positions. *)
Definition lastPageOf (ps : list PageSlot) : PageSlot :=
  default PageUndefined (last ps).

Definition firstPageOf (ps : list PageSlot) : PageSlot :=
  default PageUndefined (head ps).

End Pages.

Arguments Page : clear implicits.
Arguments PageSlot : clear implicits.
Arguments InfiniteData : clear implicits.
Arguments InfiniteQueryOptions : clear implicits.
Arguments InfiniteQueryCall : clear implicits.
Arguments QueryResult : clear implicits.
Arguments data {Item Rest} _.
Arguments rest {Item Rest} _.

End Trpc.

(** ** The parts of the server schema the module imports

    [MetricTimeframe] (from the database client), [ModelSort] and
    [AppSort] ([~/server/common/enums]) are string enumerations, given
    by their values; [periodModeSchema] and [usernameSchema] are the
    schemas of [~/server/schema].  None of them is among the sources,
    so the module is verified for every choice of them. *)

Class ServerSchema : Type := mkServerSchema {
  MetricTimeframe : list string;
  ModelSort : list string;
  AppSort : list string;
  periodModeSchema : Zod.ZodTypeAny;
  usernameSchema : Zod.ZodType string
}.

(** The same server schema with another enumeration in the place of
    [ModelSort]. *)
Definition withModelSort (S : ServerSchema) (values : list string) : ServerSchema :=
  {| MetricTimeframe := @MetricTimeframe S;
     ModelSort := values;
     AppSort := @AppSort S;
     periodModeSchema := @periodModeSchema S;
     usernameSchema := @usernameSchema S |}.

(** ** [model.utils.ts] *)

Module ModelUtils.
Import StringHelpers ObjectHelpers Zod Router Filters Trpc.

Section FilterReaders.
Context `{Emptiness}.

Definition useModelFilters (store : FiltersState) : JsObject :=
  let storeFilters := useFiltersContext store (λ state, models state) in
  removeEmpty storeFilters.

Definition useAppFilters (store : FiltersState) : JsObject :=
  let storeFilters := useFiltersContext store (λ state, apps state) in
  removeEmpty storeFilters.

End FilterReaders.

Section QueryParams.
Context `{ServerSchema} `{Emptiness}.

Definition modelQueryParamSchema : ZodRawShape :=
  partial
    [ ("period", anyType (z_nativeEnum MetricTimeframe));
      ("periodMode", periodModeSchema);
      ("sort", anyType (z_nativeEnum ModelSort));
      ("query", anyType z_string);
      ("user", anyType z_string);
      ("username", anyType (transform usernameSchema postgresSlugify));
      ("tagname", anyType z_string);
      ("tag", anyType z_string);
      ("favorites",
         anyType (z_preprocess
                    (λ val, JsBool (strictEquals val (JsBool true)
                                    || strictEquals val (JsString "true")))
                    z_boolean));
      ("hidden",
         anyType (z_preprocess
                    (λ val, JsBool (strictEquals val (JsBool true)
                                    || strictEquals val (JsString "true")))
                    z_boolean));
      ("view", anyType (z_enum ["categories"; "feed"])) ].

(** What a codec hook returns: [{ ...data, set }]. *)
Record QueryParams : Type := mkQueryParams {
  params : JsObject;
  set : JsObject → NextRouter → NextRouter
}.

(** [useMemo] caches the result per [query], [pathname] and [replace];
    the value it returns is the one computed here. *)
Definition useModelQueryParams (router : NextRouter) : QueryParams :=
  let query := query router in
  let pathname := pathname router in
  let result := safeParse modelQueryParamSchema query in
  let data :=
    match result with
    | SafeParseSuccess data => data
    | SafeParseError => {[ "view" := JsString "categories" ]}
    end in
  {| params := data;
     set := λ filters,
       replace {| url_pathname := pathname;
                  url_query := removeEmpty (objectSpread query filters) |}
               None
               {| shallow := true |} |}.

Definition appQueryParamSchema : ZodRawShape :=
  partial
    (extend modelQueryParamSchema
       [ ("sort", anyType (z_nativeEnum AppSort)) ]).

Definition useAppQueryParams (router : NextRouter) : QueryParams :=
  let query := query router in
  let pathname := pathname router in
  let result := safeParse appQueryParamSchema query in
  let data :=
    match result with
    | SafeParseSuccess data => data
    | SafeParseError => {[ "view" := JsString "categories" ]}
    end in
  {| params := data;
     set := λ filters,
       replace {| url_pathname := pathname;
                  url_query := removeEmpty (objectSpread query filters) |}
               None
               {| shallow := true |} |}.

End QueryParams.

Section FetchHooks.
Context {Item Rest : Type}.

(** The hooks' second argument. *)
Record HookOptions : Type := mkHookOptions {
  opt_keepPreviousData : option bool;
  opt_enabled : option bool
}.

(** What a fetch hook returns: [{ data, models, ...rest }], together
    with the call it made to the client. *)
Record HookResult : Type := mkHookResult {
  hook_call : InfiniteQueryCall Item;
  hook_data : option (InfiniteData Item);
  hook_models : list Item;
  hook_rest : Rest
}.

(** The client, an external collaborator. *)
Variable useInfiniteQuery : InfiniteQueryCall Item → QueryResult Item Rest.

Definition useQueryModels (filters : option JsObject)
    (hookOptions : option HookOptions) : HookResult :=
  let filters := match filters with Some f => f | None => ∅ end in
  let call :=
    {| procedure := model_getAll;
       input := filters;
       options :=
         {| getNextPageParam := λ lastPage,
              ifTruthy lastPage nextCursor (JsNumber 0);
            getPreviousPageParam := λ firstPage,
              ifTruthy firstPage nextCursor (JsNumber 0);
            skipBatch := true;
            keepPreviousData := hookOptions ≫= opt_keepPreviousData;
            enabled := hookOptions ≫= opt_enabled |} |} in
  let result := useInfiniteQuery call in
  let models :=
    match data result with
    | Some d => flatMap (λ x, ifTruthy x items []) (pages d)
    | None => []
    end in
  {| hook_call := call;
     hook_data := data result;
     hook_models := models;
     hook_rest := rest result |}.

Definition useQueryApps (filters : option JsObject)
    (hookOptions : option HookOptions) : HookResult :=
  let filters := match filters with Some f => f | None => ∅ end in
  let call :=
    {| procedure := model_getAllAppsOnly;
       input := filters;
       options :=
         {| getNextPageParam := λ lastPage,
              ifTruthy lastPage nextCursor (JsNumber 0);
            getPreviousPageParam := λ firstPage,
              ifTruthy firstPage nextCursor (JsNumber 0);
            skipBatch := true;
            keepPreviousData := hookOptions ≫= opt_keepPreviousData;
            enabled := hookOptions ≫= opt_enabled |} |} in
  let result := useInfiniteQuery call in
  let models :=
    match data result with
    | Some d => flatMap (λ x, ifTruthy x items []) (pages d)
    | None => []
    end in
  {| hook_call := call;
     hook_data := data result;
     hook_models := models;
     hook_rest := rest result |}.

Definition useQueryModelsOnly (filters : option JsObject)
    (hookOptions : option HookOptions) : HookResult :=
  let filters := match filters with Some f => f | None => ∅ end in
  let call :=
    {| procedure := model_getAllModelsOnly;
       input := filters;
       options :=
         {| getNextPageParam := λ lastPage,
              ifTruthy lastPage nextCursor (JsNumber 0);
            getPreviousPageParam := λ firstPage,
              ifTruthy firstPage nextCursor (JsNumber 0);
            skipBatch := true;
            keepPreviousData := hookOptions ≫= opt_keepPreviousData;
            enabled := hookOptions ≫= opt_enabled |} |} in
  let result := useInfiniteQuery call in
  let models :=
    match data result with
    | Some d => flatMap (λ x, ifTruthy x items []) (pages d)
    | None => []
    end in
  {| hook_call := call;
     hook_data := data result;
     hook_models := models;
     hook_rest := rest result |}.

End FetchHooks.

Arguments HookResult : clear implicits.
Arguments QueryParams : clear implicits.

End ModelUtils.

(** ** Vocabulary of the specification *)

Module Spec.
Import Zod Router Filters Trpc ModelUtils.

(** The three fetch hooks have one type. *)
Definition FetchHook : Type :=
  ∀ Item Rest : Type,
    (InfiniteQueryCall Item → QueryResult Item Rest) →
    option JsObject → option HookOptions → HookResult Item Rest.

(** What a slot of [data.pages] contributes to the flattened list. *)
Definition pageItems {Item : Type} (x : PageSlot Item) : list Item :=
  match x with
  | PageLoaded page => items page
  | PageUndefined | PageNull => []
  end.

(** Number of items contributed by the pages before index [i]. *)
Definition itemsBefore {Item : Type} (i : nat) (ps : list (PageSlot Item)) : nat :=
  length (concat (pageItems <$> take i ps)).

(** The pages of the specification's flattening example. *)
Definition examplePages : list (PageSlot Z) :=
  [ PageLoaded (mkPage [1; 2]%Z JsUndefined);
    PageUndefined;
    PageLoaded (mkPage [3]%Z JsUndefined) ].

(** A hook hands the client's data through and flattens its pages in
    order. *)
Definition FlattensPages (hook : FetchHook) : Prop :=
  (∀ (Item Rest : Type) client filters opts,
     let r := hook Item Rest client filters opts in
     hook_data r = data (client (hook_call r))
     ∧ hook_models r =
         match hook_data r with
         | Some d => concat (pageItems <$> pages d)
         | None => []
         end
     ∧ (∀ d i j page x,
          hook_data r = Some d →
          pages d !! i = Some (PageLoaded page) →
          items page !! j = Some x →
          hook_models r !! (itemsBefore i (pages d) + j) = Some x))
  ∧ (∀ (Rest : Type) client filters opts params,
       let r := hook Z Rest client filters opts in
       hook_data r = Some (mkInfiniteData examplePages params) →
       hook_models r = [1; 2; 3]%Z).

(** The cursor of the next request comes from the last loaded page. *)
Definition NextCursorOfLastPage (hook : FetchHook) : Prop :=
  ∀ (Item Rest : Type) client filters opts,
    let next := getNextPageParam (options (hook_call (hook Item Rest client filters opts))) in
    (∀ page, next (PageLoaded page) = nextCursor page)
    ∧ next PageUndefined = JsNumber 0
    ∧ next PageNull = JsNumber 0
    ∧ (∀ ps page, last ps = Some (PageLoaded page) →
         next (lastPageOf ps) = nextCursor page)
    ∧ next (lastPageOf []) = JsNumber 0
    ∧ (∀ its, next (PageLoaded (mkPage its (JsNumber 5))) = JsNumber 5).

(** The cursor of the previous request comes from the [nextCursor]
    field of the first loaded page. *)
Definition PreviousCursorOfFirstPage (hook : FetchHook) : Prop :=
  ∀ (Item Rest : Type) client filters opts,
    let previous := getPreviousPageParam (options (hook_call (hook Item Rest client filters opts))) in
    (∀ page, previous (PageLoaded page) = nextCursor page)
    ∧ previous PageUndefined = JsNumber 0
    ∧ previous PageNull = JsNumber 0
    ∧ (∀ ps page, head ps = Some (PageLoaded page) →
         previous (firstPageOf ps) = nextCursor page)
    ∧ previous (firstPageOf []) = JsNumber 0.

(** With the filters left out, the client is called with [{}]. *)
Definition DefaultsToEmptyFilters (hook : FetchHook) : Prop :=
  ∀ (Item Rest : Type) client opts,
    let r := hook Item Rest client None opts in
    input (hook_call r) = ∅
    ∧ hook_data r = data (client (hook_call r))
    ∧ hook_rest r = rest (client (hook_call r)).

(** Two shapes that have the same keys, in the same order, and parse
    the values of [data] alike. *)
Definition shapesAgreeOn (data : JsObject) (shape1 shape2 : ZodRawShape) : Prop :=
  Forall2 (λ f g, f.1 = g.1 ∧ f.2 (getProp data f.1) = g.2 (getProp data f.1))
          shape1 shape2.

(** The fallback of the codec read. *)
Definition defaultParams : JsObject := {[ "view" := JsString "categories" ]}.

(** What the specification asks of a boolean-like field: the boolean
    [true] and the string ["true"] count as true, all else as false. *)
Definition booleanLike (val : JsValue) : bool :=
  match val with
  | JsBool b => b
  | JsString s => bool_decide (s = "true")
  | _ => false
  end.

(** The field of [merged] at [key] after an update [filters] of
    [current]: the update wins, and an empty value leaves no field. *)
Definition mergedField `{ObjectHelpers.Emptiness} (current filters : JsObject)
    (key : string) : option JsValue :=
  match filters !! key with
  | Some v => if ObjectHelpers.isEmpty v then None else Some v
  | None =>
      match current !! key with
      | Some v => if ObjectHelpers.isEmpty v then None else Some v
      | None => None
      end
  end.

(** A sample server schema and a sample emptiness predicate, to run the
    module on concrete inputs. *)
Definition sampleSchema : ServerSchema :=
  {| MetricTimeframe := ["Day"; "Week"; "Month"; "Year"; "AllTime"];
     ModelSort := ["Highest Rated"; "Most Downloaded"; "Newest"];
     AppSort := ["Newest"; "Oldest"];
     periodModeSchema := anyType (z_enum ["stats"; "published"]);
     usernameSchema := z_string |}.

Definition sampleEmptiness : ObjectHelpers.Emptiness :=
  λ v, match v with
       | JsUndefined | JsNull => true
       | JsString s => bool_decide (s = "")
       | _ => false
       end.

Definition sampleRouter (q : JsObject) : NextRouter :=
  {| pathname := "/models"; query := q |}.

(** A query whose [sort] is in neither enumeration, one whose [view] is
    not a view, one with boolean-like fields and one whose [sort] is in
    both enumerations. *)
Definition invalidSortQuery : JsObject :=
  {[ "sort" := JsString "bogus"; "query" := JsString "cat" ]}.

Definition invalidViewQuery : JsObject :=
  {[ "view" := JsString "grid"; "tag" := JsString "anime" ]}.

Definition booleanQuery : JsObject :=
  {[ "favorites" := JsString "true"; "hidden" := JsString "yes" ]}.

Definition commonSortQuery : JsObject :=
  {[ "sort" := JsString "Newest"; "username" := JsString "Some User-1" ]}.

(** Two loaded pages with cursors 3 and 5. *)
Definition cursorPages : list (PageSlot Z) :=
  [ PageLoaded (mkPage [1; 2]%Z (JsNumber 3));
    PageLoaded (mkPage [3]%Z (JsNumber 5)) ].

(** A client that has loaded the pages of the flattening example. *)
Definition sampleClient (call : InfiniteQueryCall Z) : QueryResult Z unit :=
  {| data := Some (mkInfiniteData examplePages []); rest := tt |}.

(** A store whose [models] slice is the specification's example. *)
Definition sampleStore : FiltersState :=
  {| models := {[ "a" := JsUndefined; "b" := JsString ""; "c" := JsString "x" ]};
     apps := ∅ |}.

End Spec.

(** ** Vocabulary of the further properties *)

Module Derived.
Import Zod Router Filters Trpc ModelUtils Spec.

(** The keys of the query-parameter schema, in source order. *)
Definition recognizedKeys : list string :=
  ["period"; "periodMode"; "sort"; "query"; "user"; "username"; "tagname";
   "tag"; "favorites"; "hidden"; "view"].

(** The keys declared [z.string()]. *)
Definition stringKeys : list string := ["query"; "user"; "tagname"; "tag"].

(** The keys declared with the boolean preprocessing. *)
Definition booleanKeys : list string := ["favorites"; "hidden"].

(** The keys whose schema only validates: no preprocessing and no
    transformation of the value. *)
Definition validatedKeys : list string :=
  ["period"; "sort"; "query"; "user"; "tagname"; "tag"; "view"].

(** The read of a codec whose schema is [shape]. *)
Definition readWith (shape : ZodRawShape) (q : JsObject) : JsObject :=
  match safeParse shape q with
  | SafeParseSuccess parsed => parsed
  | SafeParseError => defaultParams
  end.

(** A schema that hands every value it accepts through unchanged. *)
Definition validating (schema : ZodTypeAny) : Prop :=
  ∀ v value, schema v = OK value → value = v.

(** What a defined field of a read can hold, by its key, for the sort
    enumeration [sortValues]. *)
Definition typedField `{ServerSchema} (sortValues : list string)
    (key : string) (v : JsValue) : Prop :=
  (key ∈ stringKeys → ∃ s, v = JsString s)
  ∧ (key ∈ booleanKeys → ∃ b, v = JsBool b)
  ∧ (key = "view" → v = JsString "categories" ∨ v = JsString "feed")
  ∧ (key = "sort" → ∃ s, s ∈ sortValues ∧ v = JsString s)
  ∧ (key = "period" → ∃ s, s ∈ MetricTimeframe ∧ v = JsString s)
  ∧ (key = "username" →
       ∃ input u, usernameSchema input = OK u
                  ∧ v = JsString (StringHelpers.postgresSlugify u)).

(** No field of the object holds an empty value. *)
Definition noEmptyValue `{ObjectHelpers.Emptiness} (obj : JsObject) : Prop :=
  ∀ key v, obj !! key = Some v → ObjectHelpers.isEmpty v = false.

(** A client that sends every call to the procedure [target]. *)
Definition retarget {Item Rest : Type} (target : Procedure)
    (client : InfiniteQueryCall Item → QueryResult Item Rest)
    (call : InfiniteQueryCall Item) : QueryResult Item Rest :=
  client {| procedure := target; input := input call; options := options call |}.

(** A hook is [useQueryModels] aimed at the procedure [target]: it
    makes the call of [useQueryModels] but for the procedure, and
    returns what [useQueryModels] returns from a client that sends
    every call to [target]. *)
Definition IsQueryModelsAt (target : Procedure) (hook : FetchHook) : Prop :=
  ∀ (Item Rest : Type) client filters opts,
    let r := hook Item Rest client filters opts in
    let m := @useQueryModels Item Rest (retarget target client) filters opts in
    procedure (hook_call r) = target
    ∧ input (hook_call r) = input (hook_call m)
    ∧ options (hook_call r) = options (hook_call m)
    ∧ hook_data r = hook_data m
    ∧ hook_models r = hook_models m
    ∧ hook_rest r = hook_rest m.

(** Loading one more page at the end appends its items to the
    flattened list; loading one at the front puts them before. *)
Definition ExtendsWithPage (hook : FetchHook) : Prop :=
  ∀ (Item Rest : Type) client1 client2 filters opts d1 d2 slot,
    let r1 := hook Item Rest client1 filters opts in
    let r2 := hook Item Rest client2 filters opts in
    hook_data r1 = Some d1 →
    hook_data r2 = Some d2 →
    (pages d2 = pages d1 ++ [slot] →
     hook_models r2 = hook_models r1 ++ pageItems slot)
    ∧ (pages d2 = slot :: pages d1 →
       hook_models r2 = pageItems slot ++ hook_models r1).

(** The flattened list has the items of the loaded pages and no
    others, each as often as the pages have it. *)
Definition HasThePagesItems (hook : FetchHook) : Prop :=
  ∀ (Item Rest : Type) client filters opts d,
    let r := hook Item Rest client filters opts in
    hook_data r = Some d →
    (∀ x, x ∈ hook_models r
          ↔ ∃ page, PageLoaded page ∈ pages d ∧ x ∈ items page)
    ∧ length (hook_models r)
      = sum_list ((λ slot, length (pageItems slot)) <$> pages d)
    ∧ (hook_models r = []
       ↔ ∀ page, PageLoaded page ∈ pages d → items page = []).

(** A client that answers every call with the pages [ps]. *)
Definition clientWithPages {Item : Type} (ps : list (PageSlot Item))
    (call : InfiniteQueryCall Item) : QueryResult Item unit :=
  {| data := Some (mkInfiniteData ps []); rest := tt |}.

(** A query with an unrecognized key next to recognized ones. *)
Definition mixedQuery : JsObject :=
  {[ "query" := JsString "cat"; "utm_source" := JsString "mail";
     "sort" := JsString "Newest" ]}.

(** A query whose [sort] only the app enumeration has. *)
Definition appOnlySortQuery : JsObject :=
  {[ "sort" := JsString "Oldest"; "tag" := JsString "anime" ]}.

(** The same query at another path and without the unrecognized key. *)
Definition strippedRouter : NextRouter :=
  {| pathname := "/search"; query := delete "utm_source" mixedQuery |}.

(** A query that has no key of the schema. *)
Definition foreignQuery : JsObject :=
  {[ "utm_source" := JsString "mail"; "page" := JsString "2" ]}.

(** The boolean-like query with an array under [favorites]. *)
Definition arrayFavoritesQuery : JsObject :=
  <[ "favorites" := JsArray ["true"; "false"] ]> booleanQuery.

(** The cursor pages with one more page at the end, and with one more
    page at the front. *)
Definition nextPage : PageSlot Z := PageLoaded (mkPage [4; 5]%Z JsUndefined).

Definition previousPage : PageSlot Z := PageLoaded (mkPage [0]%Z (JsNumber 1)).

End Derived.

(** * Properties *)

Import StringHelpers ObjectHelpers Zod Router Filters Trpc ModelUtils Spec.

(** ** Flattening of pages *)

Section Flattening.
Context {Item : Type}.
Implicit Types (ps : list (PageSlot Item)) (x : PageSlot Item).

Lemma flatMap_concat {A B : Type} (f : A → list B) (xs : list A) :
  flatMap f xs = concat (f <$> xs).
Proof. induction xs as [|a xs IH]; simpl; [done | by rewrite IH]. Qed.

Lemma flatMap_app {A B : Type} (f : A → list B) (xs ys : list A) :
  flatMap f (xs ++ ys) = flatMap f xs ++ flatMap f ys.
Proof.
  induction xs as [|a xs IH]; simpl; [done |].
  by rewrite IH, app_assoc.
Qed.

Lemma ifTruthy_items x : ifTruthy x items [] = pageItems x.
Proof. by destruct x. Qed.

Lemma flatMap_pageItems ps :
  flatMap (λ x, ifTruthy x items []) ps = concat (pageItems <$> ps).
Proof.
  rewrite flatMap_concat. f_equal.
Qed.

(** Item [j] of page [i] sits after all items of the earlier pages. *)
Lemma concat_pageItems_lookup ps i j page a :
  ps !! i = Some (PageLoaded page) →
  items page !! j = Some a →
  concat (pageItems <$> ps) !! (itemsBefore i ps + j) = Some a.
Proof.
  unfold itemsBefore. revert i.
  induction ps as [|x ps IH]; intros i Hi Hj; [done |].
  destruct i as [|i]; simpl in *.
  - injection Hi as ->. simpl. by apply lookup_app_l_Some.
  - rewrite length_app, <- Nat.add_assoc.
    rewrite lookup_app_r by lia.
    rewrite Nat.add_comm, Nat.add_sub.
    by apply IH.
Qed.

End Flattening.

Ltac hook_unfold :=
  unfold useQueryModels, useQueryApps, useQueryModelsOnly; simpl.

Lemma flattens_pages_of_shape (hook : FetchHook) :
  (∀ Item Rest client filters opts,
     hook_data (hook Item Rest client filters opts)
       = data (client (hook_call (hook Item Rest client filters opts)))
     ∧ hook_models (hook Item Rest client filters opts)
       = match hook_data (hook Item Rest client filters opts) with
         | Some d => flatMap (λ x, ifTruthy x items []) (pages d)
         | None => []
         end) →
  FlattensPages hook.
Proof.
  intros Hshape. split.
  - intros Item Rest client filters opts r.
    destruct (Hshape Item Rest client filters opts) as [Hdata Hmodels].
    fold r in Hdata, Hmodels. split; [done |]. split.
    + rewrite Hmodels. destruct (hook_data r); [apply flatMap_pageItems | done].
    + intros d i j page x Hd Hi Hj. rewrite Hmodels, Hd, flatMap_pageItems.
      by eapply concat_pageItems_lookup.
  - intros Rest client filters opts params r Hd.
    destruct (Hshape Z Rest client filters opts) as [_ Hmodels].
    fold r in Hmodels. by rewrite Hmodels, Hd.
Qed.

(** C2. In each of the three fetch hooks the flattened item list is the
    concatenation of the loaded pages' items, in page order and in the
    order inside each page; an undefined or null page contributes
    nothing; the pages [{items:[1,2]}, undefined, {items:[3]}] flatten
    to [1,2,3]; without data the list is empty. *)
Theorem fetch_hooks_flatten_pages :
  FlattensPages (@useQueryModels)
  ∧ FlattensPages (@useQueryApps)
  ∧ FlattensPages (@useQueryModelsOnly).
Proof.
  repeat split; apply flattens_pages_of_shape; intros; by hook_unfold.
Qed.

(** ** Pagination cursors *)

Lemma lastPageOf_last {Item : Type} (ps : list (PageSlot Item)) x :
  last ps = Some x → lastPageOf ps = x.
Proof. unfold lastPageOf. by intros ->. Qed.

Lemma firstPageOf_head {Item : Type} (ps : list (PageSlot Item)) x :
  head ps = Some x → firstPageOf ps = x.
Proof. unfold firstPageOf. by intros ->. Qed.

(** C3. In each fetch hook the cursor of the next request is the
    [nextCursor] field of the last loaded page when there is one, and
    the sentinel 0 when there is none; a last page with [nextCursor = 5]
    gives the cursor 5. *)
Theorem fetch_hooks_next_cursor :
  NextCursorOfLastPage (@useQueryModels)
  ∧ NextCursorOfLastPage (@useQueryApps)
  ∧ NextCursorOfLastPage (@useQueryModelsOnly).
Proof.
  repeat split; hook_unfold; try done;
    intros ps page Hlast; by rewrite (lastPageOf_last ps _ Hlast).
Qed.

(** C10. In each fetch hook the cursor of the previous request is read
    from the [nextCursor] field of the first loaded page, the field that
    forward pagination uses, and is the sentinel 0 when there is no
    first page. *)
Theorem fetch_hooks_previous_cursor :
  PreviousCursorOfFirstPage (@useQueryModels)
  ∧ PreviousCursorOfFirstPage (@useQueryApps)
  ∧ PreviousCursorOfFirstPage (@useQueryModelsOnly).
Proof.
  repeat split; hook_unfold; try done;
    intros ps page Hhead; by rewrite (firstPageOf_head ps _ Hhead).
Qed.

(** ** Default filters *)

(** C8. A fetch hook that is called with the filters left out calls the
    client with the empty object as input, and returns what the client
    returns for that call. *)
Theorem fetch_hooks_default_filters :
  DefaultsToEmptyFilters (@useQueryModels)
  ∧ DefaultsToEmptyFilters (@useQueryApps)
  ∧ DefaultsToEmptyFilters (@useQueryModelsOnly).
Proof. repeat split. Qed.

(** ** The object parser *)

Section ZodFacts.
Implicit Types (shape : ZodRawShape) (data : JsObject) (pairs : list ParsePair).

Lemma parsePairs_agree data shape1 shape2 :
  shapesAgreeOn data shape1 shape2 → parsePairs shape1 data = parsePairs shape2 data.
Proof.
  induction 1 as [|[k1 s1] [k2 s2] l1 l2 [Hk Hs] _ IH]; [done |].
  simpl in *. subst k2. by rewrite Hs, IH.
Qed.

Lemma safeParse_agree data shape1 shape2 :
  shapesAgreeOn data shape1 shape2 → safeParse shape1 data = safeParse shape2 data.
Proof.
  intros Hagree. unfold safeParse, parseObject.
  by rewrite (parsePairs_agree _ _ _ Hagree).
Qed.

(** The object is rejected exactly when one of the values is. *)
Lemma mergeObjectSync_INVALID pairs finalObject :
  mergeObjectSync pairs finalObject = INVALID
  ↔ ∃ entry, entry ∈ pairs ∧ pair_value entry = INVALID.
Proof.
  revert finalObject. induction pairs as [|entry pairs IH]; intros finalObject; simpl.
  - split; [done |]. intros (? & []%elem_of_nil & _).
  - destruct (pair_value entry) as [value|] eqn:Hvalue.
    + rewrite IH. split.
      * intros (e & He & Hinv). exists e. split; [by right | done].
      * intros (e & [->|He]%elem_of_cons & Hinv); [congruence | eauto].
    + split; [| done]. intros _. exists entry. split; [by left | done].
Qed.

Lemma parseObject_INVALID shape data :
  parseObject shape data = INVALID
  ↔ ∃ field, field ∈ shape ∧ field.2 (getProp data field.1) = INVALID.
Proof.
  unfold parseObject, parsePairs. rewrite mergeObjectSync_INVALID. split.
  - intros (entry & (field & -> & Hin)%list_elem_of_fmap & Hinv). eauto.
  - intros (field & Hin & Hinv).
    exists (mkParsePair field.1 (field.2 (getProp data field.1)) (hasProp data field.1)).
    split; [| done].
    by apply (list_elem_of_fmap_2
                (λ field, mkParsePair field.1 (field.2 (getProp data field.1))
                                      (hasProp data field.1))).
Qed.

Lemma safeParse_error shape data :
  success (safeParse shape data) = false
  ↔ ∃ field, field ∈ shape ∧ field.2 (getProp data field.1) = INVALID.
Proof.
  rewrite <- parseObject_INVALID. unfold safeParse.
  destruct (parseObject shape data); simpl; split; congruence.
Qed.

(** A key that no pair carries is left as it was. *)
Lemma mergeObjectSync_lookup_other pairs finalObject parsed key :
  mergeObjectSync pairs finalObject = OK parsed →
  key ∉ pair_key <$> pairs →
  parsed !! key = finalObject !! key.
Proof.
  revert finalObject. induction pairs as [|entry pairs IH]; intros finalObject; simpl.
  - by intros [= ->].
  - destruct (pair_value entry) as [value|]; [| done].
    intros Hmerge [Hne Hnotin]%not_elem_of_cons.
    rewrite (IH _ Hmerge Hnotin).
    destruct (_ || _); [by rewrite lookup_insert_ne | done].
Qed.

(** The key of a pair holds the pair's value when that is defined or
    the key was in the data. *)
Lemma mergeObjectSync_lookup pairs finalObject parsed entry :
  NoDup (pair_key <$> pairs) →
  entry ∈ pairs →
  mergeObjectSync pairs finalObject = OK parsed →
  ∃ value,
    pair_value entry = OK value
    ∧ parsed !! pair_key entry =
        if negb (strictEquals value JsUndefined) || pair_alwaysSet entry
        then Some value
        else finalObject !! pair_key entry.
Proof.
  revert finalObject. induction pairs as [|e pairs IH]; intros finalObject; simpl.
  - by intros _ ?%elem_of_nil.
  - intros [Hnotin Hnodup]%NoDup_cons [->|Hin]%elem_of_cons.
    + destruct (pair_value e) as [value|]; [| done].
      intros Hmerge. exists value. split; [done |].
      rewrite (mergeObjectSync_lookup_other _ _ _ _ Hmerge Hnotin).
      destruct (_ || _); [by rewrite lookup_insert_eq | done].
    + destruct (pair_value e) as [value|]; [| done].
      intros Hmerge. destruct (IH _ Hnodup Hin Hmerge) as (v & Hv & Hlookup).
      exists v. split; [done |]. rewrite Hlookup.
      destruct (negb (strictEquals v JsUndefined) || pair_alwaysSet entry); [done |].
      assert (pair_key e ≠ pair_key entry) as Hne.
      { intros Heq. apply Hnotin. rewrite Heq. by apply list_elem_of_fmap_2. }
      destruct (_ || _); [by rewrite lookup_insert_ne | done].
Qed.

Lemma parsePairs_keys shape data : pair_key <$> parsePairs shape data = shape.*1.
Proof.
  unfold parsePairs. induction shape as [|field shape IH]; simpl; [done | by f_equal].
Qed.

(** A field that the data supplies is parsed by the field's schema. *)
Lemma safeParse_lookup shape data parsed key schema :
  NoDup shape.*1 →
  (key, schema) ∈ shape →
  safeParse shape data = SafeParseSuccess parsed →
  ∃ value,
    schema (getProp data key) = OK value
    ∧ parsed !! key =
        if negb (strictEquals value JsUndefined) || hasProp data key
        then Some value
        else None.
Proof.
  intros Hnodup Hin. unfold safeParse.
  destruct (parseObject shape data) as [parsed'|] eqn:Hparse; [| done].
  intros [= ->]. unfold parseObject in Hparse.
  rewrite <- (parsePairs_keys shape data) in Hnodup.
  assert (mkParsePair key (schema (getProp data key)) (hasProp data key)
            ∈ parsePairs shape data) as Hentry.
  { by apply (list_elem_of_fmap_2
                (λ field, mkParsePair field.1 (field.2 (getProp data field.1))
                                      (hasProp data field.1)) _ (key, schema)). }
  destruct (mergeObjectSync_lookup _ _ _ _ Hnodup Hentry Hparse) as (v & Hv & Hl).
  simpl in *. exists v. by rewrite Hl, lookup_empty.
Qed.

(** A key outside the shape is stripped. *)
Lemma safeParse_strip shape data parsed key :
  key ∉ shape.*1 →
  safeParse shape data = SafeParseSuccess parsed →
  parsed !! key = None.
Proof.
  intros Hnotin. unfold safeParse.
  destruct (parseObject shape data) as [parsed'|] eqn:Hparse; [| done].
  intros [= ->]. unfold parseObject in Hparse.
  rewrite <- (parsePairs_keys shape data) in Hnotin.
  by rewrite (mergeObjectSync_lookup_other _ _ _ _ Hparse Hnotin), lookup_empty.
Qed.

Lemma optional_optional (schema : ZodTypeAny) input :
  optional (optional schema) input = optional schema input.
Proof. by destruct input. Qed.

End ZodFacts.

(** ** The query-parameter codec *)

Section Codec.
Context `{S : ServerSchema} `{E : Emptiness}.
Implicit Types (router : NextRouter) (filters : JsObject).

Lemma modelQueryParamSchema_keys :
  modelQueryParamSchema.*1 =
    ["period"; "periodMode"; "sort"; "query"; "user"; "username"; "tagname";
     "tag"; "favorites"; "hidden"; "view"].
Proof. reflexivity. Qed.

Lemma appQueryParamSchema_keys :
  appQueryParamSchema.*1 = modelQueryParamSchema.*1.
Proof. reflexivity. Qed.

Lemma modelQueryParamSchema_NoDup : NoDup modelQueryParamSchema.*1.
Proof. rewrite modelQueryParamSchema_keys. compute_done. Qed.

Lemma appQueryParamSchema_NoDup : NoDup appQueryParamSchema.*1.
Proof. rewrite appQueryParamSchema_keys. apply modelQueryParamSchema_NoDup. Qed.

Lemma useModelQueryParams_error router :
  success (safeParse modelQueryParamSchema (query router)) = false →
  params (useModelQueryParams router) = defaultParams.
Proof.
  unfold useModelQueryParams. simpl.
  by destruct (safeParse modelQueryParamSchema (query router)).
Qed.

Lemma useAppQueryParams_error router :
  success (safeParse appQueryParamSchema (query router)) = false →
  params (useAppQueryParams router) = defaultParams.
Proof.
  unfold useAppQueryParams. simpl.
  by destruct (safeParse appQueryParamSchema (query router)).
Qed.

(** C1. When the schema parse of the raw query fails, which is when
    some field of the schema rejects its value, the model codec and the
    app codec both read exactly the object [{ view: "categories" }]:
    no other field of the query is kept. *)
Theorem invalid_query_reads_default router :
  (success (safeParse modelQueryParamSchema (query router)) = false →
   params (useModelQueryParams router) = {[ "view" := JsString "categories" ]})
  ∧ (success (safeParse appQueryParamSchema (query router)) = false →
     params (useAppQueryParams router) = {[ "view" := JsString "categories" ]})
  ∧ (∀ field, field ∈ modelQueryParamSchema →
       field.2 (getProp (query router) field.1) = INVALID →
       params (useModelQueryParams router) = {[ "view" := JsString "categories" ]})
  ∧ (∀ field, field ∈ appQueryParamSchema →
       field.2 (getProp (query router) field.1) = INVALID →
       params (useAppQueryParams router) = {[ "view" := JsString "categories" ]}).
Proof.
  split; [apply useModelQueryParams_error |].
  split; [apply useAppQueryParams_error |].
  split; intros field Hin Hinv.
  - apply useModelQueryParams_error, safeParse_error. eauto.
  - apply useAppQueryParams_error, safeParse_error. eauto.
Qed.

(** *** Boolean-like fields *)

Lemma booleanLike_true val :
  booleanLike val = true ↔ val = JsBool true ∨ val = JsString "true".
Proof.
  destruct val as [| |[]|n|s|xs]; simpl; try (split; [done | by intros [|]]).
  - split; [by left | done].
  - rewrite bool_decide_eq_true. split; [intros ->; by right |].
    by intros [|[= ->]].
Qed.

(** The schema of [favorites] and of [hidden], before [.partial()]. *)
Lemma preprocess_boolean val :
  anyType (z_preprocess
             (λ val, JsBool (strictEquals val (JsBool true)
                             || strictEquals val (JsString "true")))
             z_boolean) val
  = OK (JsBool (booleanLike val)).
Proof. by destruct val as [| |[]|n|s|xs]. Qed.

Lemma optional_preprocess_boolean val :
  val ≠ JsUndefined →
  optional
    (anyType (z_preprocess
                (λ val, JsBool (strictEquals val (JsBool true)
                                || strictEquals val (JsString "true")))
                z_boolean)) val
  = OK (JsBool (booleanLike val)).
Proof. intros Hdef. rewrite <- preprocess_boolean. by destruct val. Qed.

Lemma getProp_lookup (data : JsObject) key val :
  data !! key = Some val → getProp data key = val ∧ hasProp data key = true.
Proof.
  intros Hlookup. unfold getProp, hasProp. rewrite Hlookup.
  split; [done |]. by apply bool_decide_eq_true.
Qed.

(** A supplied boolean-like field of a shape whose schema is [schema]. *)
Lemma boolean_field_of_shape shape key schema :
  NoDup shape.*1 →
  shapeLookup shape key = Some schema →
  (key, schema) ∈ shape →
  (∀ val, val ≠ JsUndefined → schema val = OK (JsBool (booleanLike val))) →
  ∀ val, val ≠ JsUndefined →
    ∃ schema,
      shapeLookup shape key = Some schema
      ∧ schema val = OK (JsBool (booleanLike val))
      ∧ ∀ data parsed,
          data !! key = Some val →
          safeParse shape data = SafeParseSuccess parsed →
          parsed !! key = Some (JsBool (booleanLike val)).
Proof.
  intros Hnodup Hlookup Hin Hschema val Hdef.
  exists schema. split; [done |]. split; [by apply Hschema |].
  intros data parsed [Hget Hhas]%getProp_lookup Hparse.
  destruct (safeParse_lookup _ _ _ _ _ Hnodup Hin Hparse) as (v & Hv & Hl).
  rewrite Hget, Hschema in Hv by done. injection Hv as <-.
  by rewrite Hl, Hhas.
Qed.

Ltac shape_member :=
  unfold modelQueryParamSchema, appQueryParamSchema, partial, extend; simpl;
  repeat first [ by apply list_elem_of_here | apply list_elem_of_further ].

(** C4. A value supplied for [favorites] or for [hidden] is normalised
    by the model codec and by the app codec to the boolean [true] when
    it is the boolean [true] or the string ["true"], and to the boolean
    [false] otherwise; the field never makes the parse fail. *)
Theorem boolean_like_fields_normalise key val :
  key = "favorites" ∨ key = "hidden" →
  val ≠ JsUndefined →
  (booleanLike val = true ↔ val = JsBool true ∨ val = JsString "true")
  ∧ (∃ schema,
       shapeLookup modelQueryParamSchema key = Some schema
       ∧ schema val = OK (JsBool (booleanLike val))
       ∧ ∀ data parsed,
           data !! key = Some val →
           safeParse modelQueryParamSchema data = SafeParseSuccess parsed →
           parsed !! key = Some (JsBool (booleanLike val)))
  ∧ (∃ schema,
       shapeLookup appQueryParamSchema key = Some schema
       ∧ schema val = OK (JsBool (booleanLike val))
       ∧ ∀ data parsed,
           data !! key = Some val →
           safeParse appQueryParamSchema data = SafeParseSuccess parsed →
           parsed !! key = Some (JsBool (booleanLike val))).
Proof.
  intros Hkey Hdef. split; [apply booleanLike_true |].
  split.
  - destruct Hkey as [-> | ->];
      (eapply boolean_field_of_shape;
       [ apply modelQueryParamSchema_NoDup | reflexivity | shape_member
       | apply optional_preprocess_boolean | done ]).
  - destruct Hkey as [-> | ->];
      (eapply boolean_field_of_shape;
       [ apply appQueryParamSchema_NoDup | reflexivity | shape_member
       | | done ]);
      intros v Hv; simpl; rewrite optional_optional;
      by apply optional_preprocess_boolean.
Qed.

(** *** The setter *)

Lemma removeEmpty_lookup (obj : JsObject) key :
  removeEmpty obj !! key =
    match obj !! key with
    | Some v => if isEmpty v then None else Some v
    | None => None
    end.
Proof.
  unfold removeEmpty. rewrite map_lookup_filter.
  destruct (obj !! key) as [v|]; simpl; [| done].
  destruct (isEmpty v); by simplify_option_eq.
Qed.

Lemma removeEmpty_spread_lookup (current filters : JsObject) key :
  removeEmpty (objectSpread current filters) !! key = mergedField current filters key.
Proof.
  rewrite removeEmpty_lookup. unfold objectSpread, mergedField.
  rewrite lookup_union. by destruct (filters !! key), (current !! key).
Qed.

(** Merging the same update into its own result changes nothing. *)
Lemma removeEmpty_spread_idempotent (current filters : JsObject) :
  removeEmpty (objectSpread (removeEmpty (objectSpread current filters)) filters)
  = removeEmpty (objectSpread current filters).
Proof.
  apply map_eq. intros key.
  rewrite !removeEmpty_spread_lookup. unfold mergedField.
  rewrite removeEmpty_spread_lookup. unfold mergedField.
  destruct (filters !! key) as [v|]; [done |].
  destruct (current !! key) as [v|]; [| done].
  by destruct (isEmpty v) eqn:Hv; [| rewrite Hv].
Qed.

(** C5. The setter of either codec replaces the query of the location
    by the merge of the update over the current query with the empty
    fields removed, and keeps the path; setting the same update again
    on the resulting location gives that location again, with the
    setter of the next render as with the setter of the same render. *)
Theorem set_merges_and_is_idempotent router filters :
  (let once := set (useModelQueryParams router) filters router in
   query once = removeEmpty (objectSpread (query router) filters)
   ∧ (∀ key, query once !! key = mergedField (query router) filters key)
   ∧ pathname once = pathname router
   ∧ set (useModelQueryParams once) filters once = once
   ∧ set (useModelQueryParams router) filters once = once)
  ∧ (let once := set (useAppQueryParams router) filters router in
     query once = removeEmpty (objectSpread (query router) filters)
     ∧ (∀ key, query once !! key = mergedField (query router) filters key)
     ∧ pathname once = pathname router
     ∧ set (useAppQueryParams once) filters once = once
     ∧ set (useAppQueryParams router) filters once = once).
Proof.
  split; cbv zeta; unfold useModelQueryParams, useAppQueryParams, replace; simpl;
    rewrite removeEmpty_spread_idempotent;
    (split; [reflexivity |]);
    (split; [intros key; apply removeEmpty_spread_lookup |]);
    (split; [reflexivity |]); (split; reflexivity).
Qed.

(** *** The app codec *)

Lemma appQueryParamSchema_agree data :
  shapesAgreeOn data appQueryParamSchema
                (@modelQueryParamSchema (withModelSort S AppSort)).
Proof.
  unfold shapesAgreeOn, appQueryParamSchema, modelQueryParamSchema, partial, extend.
  simpl.
  repeat (apply Forall2_cons; split;
          [split; [reflexivity | simpl; by rewrite ?optional_optional] |]).
  constructor.
Qed.

Lemma appQueryParamSchema_agree_model data :
  z_nativeEnum AppSort (getProp data "sort")
    = z_nativeEnum ModelSort (getProp data "sort") →
  shapesAgreeOn data appQueryParamSchema modelQueryParamSchema.
Proof.
  intros Hsort.
  unfold shapesAgreeOn, appQueryParamSchema, modelQueryParamSchema, partial, extend.
  simpl.
  repeat (apply Forall2_cons; split;
          [split;
           [ reflexivity
           | simpl;
             lazymatch goal with
             | |- optional (optional _) _ = _ => apply optional_optional
             | |- _ => idtac
             end ] |]);
    [| constructor].
  unfold optional, anyType, transform. rewrite Hsort. reflexivity.
Qed.

(** C6. The app codec is the model codec with [AppSort] in the place of
    [ModelSort]: the two parse every query alike, read the same
    parameters, fall back alike and have the same setter; on a query
    whose [sort] the two enumerations treat alike, the app codec and the
    model codec themselves read the same parameters. *)
Theorem app_codec_is_model_codec_with_AppSort router :
  safeParse appQueryParamSchema (query router)
    = safeParse (@modelQueryParamSchema (withModelSort S AppSort)) (query router)
  ∧ params (useAppQueryParams router)
      = params (@useModelQueryParams (withModelSort S AppSort) E router)
  ∧ (∀ filters r,
       set (useAppQueryParams router) filters r
         = set (@useModelQueryParams (withModelSort S AppSort) E router) filters r)
  ∧ (∀ filters r,
       set (useAppQueryParams router) filters r
         = set (useModelQueryParams router) filters r)
  ∧ (z_nativeEnum AppSort (getProp (query router) "sort")
       = z_nativeEnum ModelSort (getProp (query router) "sort") →
     params (useAppQueryParams router) = params (useModelQueryParams router)).
Proof.
  pose proof (safeParse_agree _ _ _ (appQueryParamSchema_agree (query router)))
    as Hparse.
  split; [exact Hparse |].
  split.
  { unfold useAppQueryParams, useModelQueryParams. cbn [params].
    rewrite Hparse. reflexivity. }
  split; [intros; unfold useAppQueryParams, useModelQueryParams; cbn [set]; reflexivity |].
  split; [intros; unfold useAppQueryParams, useModelQueryParams; cbn [set]; reflexivity |].
  intros Hsort. unfold useAppQueryParams, useModelQueryParams. cbn [params].
  rewrite (safeParse_agree _ _ _ (appQueryParamSchema_agree_model _ Hsort)).
  reflexivity.
Qed.

End Codec.

(** ** The filter state readers *)

Section Readers.
Context `{E : Emptiness}.

(** C7. The filter readers return the [models] slice and the [apps] slice
    of the store with the empty-valued fields removed and all other
    fields kept; they are total, and an empty slice gives the empty
    object.  For an emptiness predicate that holds of [undefined] and of
    the empty string and not of ["x"], the slice
    [{a: undefined, b: "", c: "x"}] is read as [{c: "x"}]. *)
Theorem filter_readers_remove_empty (store : FiltersState) :
  isEmpty JsUndefined = true →
  isEmpty (JsString "") = true →
  isEmpty (JsString "x") = false →
  (∀ key, useModelFilters store !! key =
            match models store !! key with
            | Some v => if isEmpty v then None else Some v
            | None => None
            end)
  ∧ (∀ key, useAppFilters store !! key =
              match apps store !! key with
              | Some v => if isEmpty v then None else Some v
              | None => None
              end)
  ∧ (models store = ∅ → useModelFilters store = ∅)
  ∧ (apps store = ∅ → useAppFilters store = ∅)
  ∧ (models store
       = {[ "a" := JsUndefined; "b" := JsString ""; "c" := JsString "x" ]} →
     useModelFilters store = {[ "c" := JsString "x" ]})
  ∧ (apps store
       = {[ "a" := JsUndefined; "b" := JsString ""; "c" := JsString "x" ]} →
     useAppFilters store = {[ "c" := JsString "x" ]}).
Proof.
  intros Hundefined Hempty Hx.
  assert (removeEmpty
            {[ "a" := JsUndefined; "b" := JsString ""; "c" := JsString "x" ]}
          = ({[ "c" := JsString "x" ]} : JsObject)) as Hexample.
  { apply map_eq. intros key. rewrite removeEmpty_lookup.
    destruct (decide (key = "a")) as [->|Ha].
    { rewrite lookup_insert_eq, Hundefined. reflexivity. }
    rewrite (lookup_insert_ne _ "a") by done.
    destruct (decide (key = "b")) as [->|Hb].
    { rewrite lookup_insert_eq, Hempty. reflexivity. }
    rewrite (lookup_insert_ne _ "b") by done.
    destruct (decide (key = "c")) as [->|Hc].
    { rewrite !lookup_singleton_eq, Hx. reflexivity. }
    rewrite !lookup_singleton_ne by done. reflexivity. }
  unfold useModelFilters, useAppFilters, useFiltersContext.
  split; [intros key; apply removeEmpty_lookup |].
  split; [intros key; apply removeEmpty_lookup |].
  split; [intros ->; apply map_filter_empty |].
  split; [intros ->; apply map_filter_empty |].
  split; intros ->; exact Hexample.
Qed.

End Readers.

(** ** Username normalisation *)

Section Username.
Context `{S : ServerSchema}.

(** A character that [slugChar] produces is kept by [slugChar]. *)
Lemma slugChar_fixed c c' : slugChar c = Some c' → slugChar c' = Some c'.
Proof.
  intros Heq.
  destruct c as [[] [] [] [] [] [] [] []]; vm_compute in Heq;
    first [ discriminate Heq | injection Heq as <-; vm_compute; reflexivity ].
Qed.

(** A character-wise normalisation whose outputs are fixed is
    idempotent. *)
Lemma normalise_idempotent (norm : ascii → option ascii) :
  (∀ c c', norm c = Some c' → norm c' = Some c') →
  ∀ str, normalise norm (normalise norm str) = normalise norm str.
Proof.
  intros Hfixed. induction str as [|c rest IH]; simpl; [done |].
  destruct (norm c) as [c'|] eqn:Hc; simpl; [| done].
  by rewrite (Hfixed _ _ Hc), IH.
Qed.

(** C9. Username normalisation is idempotent: a username that the
    schema accepts is read by the codec in its normalised form, and
    normalising a normalised username gives it back unchanged. *)
Theorem username_normalisation_idempotent (input : JsValue) (u : string) :
  usernameSchema input = OK u →
  anyType (transform usernameSchema postgresSlugify) input
    = OK (JsString (postgresSlugify u))
  ∧ postgresSlugify (postgresSlugify u) = postgresSlugify u.
Proof.
  intros Haccepted. split.
  - unfold anyType, transform. by rewrite Haccepted.
  - apply normalise_idempotent, slugChar_fixed.
Qed.

End Username.

(** * The properties on concrete inputs *)

Lemma invalid_query_reads_default_witness :
  params (@useModelQueryParams sampleSchema sampleEmptiness
            (sampleRouter invalidSortQuery))
    = {[ "view" := JsString "categories" ]}
  ∧ params (@useAppQueryParams sampleSchema sampleEmptiness
              (sampleRouter invalidSortQuery))
      = {[ "view" := JsString "categories" ]}
  ∧ params (@useModelQueryParams sampleSchema sampleEmptiness
              (sampleRouter invalidViewQuery))
      = {[ "view" := JsString "categories" ]}
  ∧ params (@useAppQueryParams sampleSchema sampleEmptiness
              (sampleRouter invalidViewQuery))
      = {[ "view" := JsString "categories" ]}.
Proof.
  destruct (@invalid_query_reads_default sampleSchema sampleEmptiness
              (sampleRouter invalidSortQuery)) as (Hmodel & Happ & _ & _).
  destruct (@invalid_query_reads_default sampleSchema sampleEmptiness
              (sampleRouter invalidViewQuery)) as (_ & _ & Hmodel' & Happ').
  split; [apply Hmodel; vm_compute; reflexivity |].
  split; [apply Happ; vm_compute; reflexivity |].
  split.
  - apply (Hmodel' ("view", optional (anyType (z_enum ["categories"; "feed"])))).
    + unfold modelQueryParamSchema, partial. simpl.
      repeat first [ apply list_elem_of_here | apply list_elem_of_further ].
    + vm_compute. reflexivity.
  - apply (Happ' ("view",
                  optional (optional (anyType (z_enum ["categories"; "feed"]))))).
    + unfold appQueryParamSchema, modelQueryParamSchema, partial, extend. simpl.
      repeat first [ apply list_elem_of_here | apply list_elem_of_further ].
    + vm_compute. reflexivity.
Defined.

Lemma fetch_hooks_flatten_pages_witness :
  hook_models (useQueryModels sampleClient None None) = [1; 2; 3]%Z
  ∧ hook_models (useQueryApps sampleClient None None) = [1; 2; 3]%Z
  ∧ hook_models (useQueryModelsOnly sampleClient None None) = [1; 2; 3]%Z
  ∧ hook_models (useQueryModels sampleClient None None)
      !! (itemsBefore 2 examplePages + 0) = Some 3%Z.
Proof.
  destruct fetch_hooks_flatten_pages
    as ((Hmodels & Hmodels_ex) & (_ & Happs_ex) & (_ & Honly_ex)).
  split; [apply (Hmodels_ex unit sampleClient None None []); reflexivity |].
  split; [apply (Happs_ex unit sampleClient None None []); reflexivity |].
  split; [apply (Honly_ex unit sampleClient None None []); reflexivity |].
  destruct (Hmodels Z unit sampleClient None None) as (_ & _ & Hposition).
  apply (Hposition (mkInfiniteData examplePages []) 2 0 (mkPage [3]%Z JsUndefined));
    reflexivity.
Defined.

Lemma fetch_hooks_next_cursor_witness :
  getNextPageParam (options (hook_call (useQueryModels sampleClient None None)))
                   (lastPageOf cursorPages) = JsNumber 5
  ∧ getNextPageParam (options (hook_call (useQueryApps sampleClient None None)))
                     (lastPageOf cursorPages) = JsNumber 5
  ∧ getNextPageParam (options (hook_call (useQueryModelsOnly sampleClient None None)))
                     (lastPageOf cursorPages) = JsNumber 5.
Proof.
  destruct fetch_hooks_next_cursor as (Hmodels & Happs & Honly).
  destruct (Hmodels Z unit sampleClient None None) as (_ & _ & _ & Hm & _).
  destruct (Happs Z unit sampleClient None None) as (_ & _ & _ & Ha & _).
  destruct (Honly Z unit sampleClient None None) as (_ & _ & _ & Ho & _).
  split; [apply (Hm cursorPages (mkPage [3]%Z (JsNumber 5))); reflexivity |].
  split; [apply (Ha cursorPages (mkPage [3]%Z (JsNumber 5))); reflexivity |].
  apply (Ho cursorPages (mkPage [3]%Z (JsNumber 5))); reflexivity.
Defined.

Lemma fetch_hooks_previous_cursor_witness :
  getPreviousPageParam (options (hook_call (useQueryModels sampleClient None None)))
                       (firstPageOf cursorPages) = JsNumber 3
  ∧ getPreviousPageParam (options (hook_call (useQueryApps sampleClient None None)))
                         (firstPageOf cursorPages) = JsNumber 3
  ∧ getPreviousPageParam
      (options (hook_call (useQueryModelsOnly sampleClient None None)))
      (firstPageOf cursorPages) = JsNumber 3.
Proof.
  destruct fetch_hooks_previous_cursor as (Hmodels & Happs & Honly).
  destruct (Hmodels Z unit sampleClient None None) as (_ & _ & _ & Hm & _).
  destruct (Happs Z unit sampleClient None None) as (_ & _ & _ & Ha & _).
  destruct (Honly Z unit sampleClient None None) as (_ & _ & _ & Ho & _).
  split; [apply (Hm cursorPages (mkPage [1; 2]%Z (JsNumber 3))); reflexivity |].
  split; [apply (Ha cursorPages (mkPage [1; 2]%Z (JsNumber 3))); reflexivity |].
  apply (Ho cursorPages (mkPage [1; 2]%Z (JsNumber 3))); reflexivity.
Defined.

Lemma boolean_like_fields_normalise_witness :
  params (@useModelQueryParams sampleSchema sampleEmptiness
            (sampleRouter booleanQuery)) !! "favorites" = Some (JsBool true)
  ∧ params (@useAppQueryParams sampleSchema sampleEmptiness
              (sampleRouter booleanQuery)) !! "hidden" = Some (JsBool false).
Proof.
  split.
  - destruct (@boolean_like_fields_normalise sampleSchema
                "favorites" (JsString "true"))
      as (_ & (schema & _ & _ & Hparsed) & _);
      [by left | discriminate |].
    apply (Hparsed booleanQuery); vm_compute; reflexivity.
  - destruct (@boolean_like_fields_normalise sampleSchema
                "hidden" (JsString "yes"))
      as (_ & _ & (schema & _ & _ & Hparsed));
      [by right | discriminate |].
    apply (Hparsed booleanQuery); vm_compute; reflexivity.
Defined.

Lemma app_codec_is_model_codec_with_AppSort_witness :
  params (@useAppQueryParams sampleSchema sampleEmptiness
            (sampleRouter commonSortQuery))
  = params (@useModelQueryParams sampleSchema sampleEmptiness
              (sampleRouter commonSortQuery)).
Proof.
  destruct (@app_codec_is_model_codec_with_AppSort sampleSchema sampleEmptiness
              (sampleRouter commonSortQuery)) as (_ & _ & _ & _ & Hcommon).
  apply Hcommon. vm_compute. reflexivity.
Defined.

Lemma filter_readers_remove_empty_witness :
  @useModelFilters sampleEmptiness sampleStore = {[ "c" := JsString "x" ]}
  ∧ @useAppFilters sampleEmptiness sampleStore = ∅.
Proof.
  destruct (@filter_readers_remove_empty sampleEmptiness sampleStore)
    as (_ & _ & _ & Happs & Hmodels & _); [reflexivity .. |].
  split; [apply Hmodels | apply Happs]; reflexivity.
Defined.

Lemma username_normalisation_idempotent_witness :
  anyType (transform (@usernameSchema sampleSchema) postgresSlugify)
          (JsString "Some User-1")
    = OK (JsString "some_user_1")
  ∧ postgresSlugify (postgresSlugify "Some User-1") = postgresSlugify "Some User-1".
Proof.
  apply (@username_normalisation_idempotent sampleSchema
           (JsString "Some User-1") "Some User-1").
  reflexivity.
Defined.

(** * Further properties of the module *)

Import Derived.

(** ** The object parser, continued *)

Section ZodMore.
Implicit Types (shape : ZodRawShape) (data : JsObject).

(** The parse looks at the data only through the keys of the shape. *)
Lemma parsePairs_same_fields shape data1 data2 :
  (∀ key, key ∈ shape.*1 → data1 !! key = data2 !! key) →
  parsePairs shape data1 = parsePairs shape data2.
Proof.
  unfold parsePairs, getProp, hasProp.
  induction shape as [|[k s] shape IH]; intros Hsame; simpl; [done |].
  rewrite (Hsame k) by (simpl; apply list_elem_of_here).
  f_equal. apply IH. intros key Hkey. apply Hsame. simpl.
  by apply list_elem_of_further.
Qed.

Lemma safeParse_same_fields shape data1 data2 :
  (∀ key, key ∈ shape.*1 → data1 !! key = data2 !! key) →
  safeParse shape data1 = safeParse shape data2.
Proof.
  intros Hsame. unfold safeParse, parseObject.
  by rewrite (parsePairs_same_fields _ _ _ Hsame).
Qed.

Lemma shapeLookup_elem_of shape key schema :
  NoDup shape.*1 →
  (key, schema) ∈ shape → shapeLookup shape key = Some schema.
Proof.
  induction shape as [|[k s] shape IH]; simpl.
  - by intros _ ?%elem_of_nil.
  - intros [Hnotin Hnodup]%NoDup_cons [Heq|Hin]%elem_of_cons.
    + injection Heq as -> ->. by rewrite decide_True.
    + rewrite decide_False; [by apply IH |].
      intros ->. apply Hnotin.
      by apply (list_elem_of_fmap_2 fst _ (key, schema)).
Qed.

Lemma shapeLookup_Some shape key schema :
  shapeLookup shape key = Some schema → (key, schema) ∈ shape.
Proof.
  induction shape as [|[k s] shape IH]; simpl; [done |].
  case_decide as Hk.
  - intros [= ->]. subst k. apply list_elem_of_here.
  - intros Hl. apply list_elem_of_further. by apply IH.
Qed.

Lemma shapeLookup_None shape key :
  shapeLookup shape key = None → key ∉ shape.*1.
Proof.
  induction shape as [|[k s] shape IH]; simpl.
  - intros _. apply not_elem_of_nil.
  - case_decide as Hk; [done |]. intros Hl.
    apply not_elem_of_cons. split; [done | by apply IH].
Qed.

(** Every field of a [.partial()] shape accepts [undefined]. *)
Lemma partial_accepts_undefined shape field :
  field ∈ partial shape → field.2 JsUndefined = OK JsUndefined.
Proof.
  unfold partial. intros (f & -> & _)%list_elem_of_fmap. reflexivity.
Qed.

(** A field that the data does not have is not in the parsed object
    either, when the shape is partial. *)
Lemma safeParse_partial_absent shape data parsed key :
  NoDup (partial shape).*1 →
  data !! key = None →
  safeParse (partial shape) data = SafeParseSuccess parsed →
  parsed !! key = None.
Proof.
  intros Hnodup Habsent Hparse.
  destruct (shapeLookup (partial shape) key) as [schema|] eqn:Hlookup.
  - apply shapeLookup_Some in Hlookup as Hin.
    destruct (safeParse_lookup _ _ _ _ _ Hnodup Hin Hparse) as (v & Hv & Hl).
    unfold getProp, hasProp in *. rewrite Habsent in *. simpl in *.
    pose proof (partial_accepts_undefined _ _ Hin) as Hundefined.
    simpl in Hundefined. rewrite Hundefined in Hv. injection Hv as <-.
    rewrite Hl. reflexivity.
  - apply shapeLookup_None in Hlookup.
    by apply (safeParse_strip _ _ _ _ Hlookup Hparse).
Qed.

(** The field of the shape decides what is stored under its key. *)
Lemma safeParse_field shape data parsed key schema v :
  NoDup shape.*1 →
  shapeLookup shape key = Some schema →
  safeParse shape data = SafeParseSuccess parsed →
  parsed !! key = Some v →
  schema (getProp data key) = OK v.
Proof.
  intros Hnodup Hin%shapeLookup_Some Hparse Hv.
  destruct (safeParse_lookup _ _ _ _ _ Hnodup Hin Hparse) as (v' & Hv' & Hl).
  rewrite Hl in Hv. by destruct (_ || _); simplify_eq.
Qed.

Lemma safeParse_field_supplied shape data parsed key schema v :
  NoDup shape.*1 →
  shapeLookup shape key = Some schema →
  data !! key = Some v →
  safeParse shape data = SafeParseSuccess parsed →
  ∃ value, schema v = OK value ∧ parsed !! key = Some value.
Proof.
  intros Hnodup Hin%shapeLookup_Some [Hget Hhas]%getProp_lookup Hparse.
  destruct (safeParse_lookup _ _ _ _ _ Hnodup Hin Hparse) as (v' & Hv' & Hl).
  exists v'. rewrite Hget in Hv'. split; [done |].
  by rewrite Hl, Hhas, orb_true_r.
Qed.

Lemma safeParse_field_invalid shape data key schema :
  shapeLookup shape key = Some schema →
  schema (getProp data key) = INVALID →
  success (safeParse shape data) = false.
Proof.
  intros Hin%shapeLookup_Some Hinv. apply safeParse_error.
  by exists (key, schema).
Qed.

(** Whether the parse succeeds is decided field by field. *)
Lemma safeParse_success_same shape data1 data2 :
  (∀ field, field ∈ shape →
     field.2 (getProp data1 field.1) = INVALID
     ↔ field.2 (getProp data2 field.1) = INVALID) →
  success (safeParse shape data1) = success (safeParse shape data2).
Proof.
  intros Hsame.
  destruct (success (safeParse shape data1)) eqn:H1,
           (success (safeParse shape data2)) eqn:H2; try done.
  - apply safeParse_error in H2 as (field & Hin & Hinv).
    apply (Hsame _ Hin) in Hinv.
    assert (success (safeParse shape data1) = false) as Hf
      by (apply safeParse_error; eauto).
    congruence.
  - apply safeParse_error in H1 as (field & Hin & Hinv).
    apply (Hsame _ Hin) in Hinv.
    assert (success (safeParse shape data2) = false) as Hf
      by (apply safeParse_error; eauto).
    congruence.
Qed.

End ZodMore.

(** ** The read of the codec, field by field *)

Section ReadFields.
Context `{S : ServerSchema} `{E : Emptiness}.
Implicit Types (router : NextRouter) (shape : ZodRawShape) (q : JsObject).

Lemma useModelQueryParams_read router :
  params (useModelQueryParams router) = readWith modelQueryParamSchema (query router).
Proof. reflexivity. Qed.

Lemma useAppQueryParams_read router :
  params (useAppQueryParams router) = readWith appQueryParamSchema (query router).
Proof. reflexivity. Qed.

Lemma modelQueryParamSchema_recognized : modelQueryParamSchema.*1 = recognizedKeys.
Proof. reflexivity. Qed.

Lemma appQueryParamSchema_recognized : appQueryParamSchema.*1 = recognizedKeys.
Proof. reflexivity. Qed.

Lemma recognizedKeys_NoDup : NoDup recognizedKeys.
Proof. unfold recognizedKeys. compute_done. Qed.

Lemma defaultParams_lookup key v :
  defaultParams !! key = Some v → key = "view" ∧ v = JsString "categories".
Proof.
  unfold defaultParams. intros [<- <-]%lookup_singleton_Some. done.
Qed.

Lemma readWith_unrecognized shape q key :
  key ∉ shape.*1 → "view" ∈ shape.*1 → readWith shape q !! key = None.
Proof.
  intros Hnotin Hview. unfold readWith.
  destruct (safeParse shape q) as [parsed|] eqn:Hparse.
  - by apply (safeParse_strip _ _ _ _ Hnotin Hparse).
  - unfold defaultParams. apply lookup_singleton_ne. by intros <-.
Qed.

Lemma readWith_same_fields shape q1 q2 :
  (∀ key, key ∈ shape.*1 → q1 !! key = q2 !! key) →
  readWith shape q1 = readWith shape q2.
Proof.
  intros Hsame. unfold readWith. by rewrite (safeParse_same_fields _ _ _ Hsame).
Qed.

Lemma readWith_partial_absent shape q key :
  NoDup (partial shape).*1 →
  q !! key = None →
  key ≠ "view" ∨ success (safeParse (partial shape) q) = true →
  readWith (partial shape) q !! key = None.
Proof.
  intros Hnodup Habsent Hcase. unfold readWith.
  destruct (safeParse (partial shape) q) as [parsed|] eqn:Hparse.
  - by apply (safeParse_partial_absent _ _ _ _ Hnodup Habsent Hparse).
  - destruct Hcase as [Hview|Hsuccess]; [| done].
    unfold defaultParams. apply lookup_singleton_ne. by intros <-.
Qed.

Lemma readWith_field shape q key schema v :
  NoDup shape.*1 →
  shapeLookup shape key = Some schema →
  readWith shape q !! key = Some v →
  (key = "view" ∧ v = JsString "categories") ∨ schema (getProp q key) = OK v.
Proof.
  intros Hnodup Hlookup. unfold readWith.
  destruct (safeParse shape q) as [parsed|] eqn:Hparse.
  - intros Hv. right. by eapply safeParse_field.
  - intros Hv%defaultParams_lookup. by left.
Qed.

Lemma readWith_supplied_validating shape q key schema v :
  NoDup shape.*1 →
  shapeLookup shape key = Some schema →
  validating schema →
  q !! key = Some v →
  success (safeParse shape q) = true →
  readWith shape q !! key = Some v.
Proof.
  intros Hnodup Hlookup Hvalidating Hv. unfold readWith.
  destruct (safeParse shape q) as [parsed|] eqn:Hparse; [| done].
  intros _.
  destruct (safeParse_field_supplied _ _ _ _ _ _ Hnodup Hlookup Hv Hparse)
    as (value & Hvalue & ->).
  by rewrite (Hvalidating _ _ Hvalue).
Qed.

Lemma readWith_field_invalid shape q key schema :
  shapeLookup shape key = Some schema →
  schema (getProp q key) = INVALID →
  readWith shape q = defaultParams.
Proof.
  intros Hlookup Hinv. unfold readWith.
  pose proof (safeParse_field_invalid _ _ _ _ Hlookup Hinv) as Hfail.
  by destruct (safeParse shape q).
Qed.

(** *** The schemas of the fields *)

Lemma validating_optional schema : validating schema → validating (optional schema).
Proof.
  intros Hs v value. destruct v; simpl; try apply Hs. by intros [= <-].
Qed.

Lemma validating_string : validating (anyType z_string).
Proof. intros v value. destruct v; simpl; by intros [= <-]. Qed.

Lemma validating_enum values : validating (anyType (z_enum values)).
Proof.
  intros v value. destruct v; try done. unfold anyType, transform, z_enum.
  case_decide; by intros [= <-].
Qed.

Lemma validating_nativeEnum values : validating (anyType (z_nativeEnum values)).
Proof.
  intros v value. destruct v; try done. unfold anyType, transform, z_nativeEnum.
  case_decide; by intros [= <-].
Qed.

Lemma optional_defined (schema : ZodTypeAny) x v :
  optional schema x = OK v → v ≠ JsUndefined → schema x = OK v.
Proof. destruct x; simpl; try done. by intros [= <-]. Qed.

Lemma optional_INVALID (schema : ZodTypeAny) x :
  x ≠ JsUndefined → schema x = INVALID → optional schema x = INVALID.
Proof. by destruct x. Qed.

Lemma string_OK x v : anyType z_string x = OK v → ∃ s, v = JsString s.
Proof. destruct x; simpl; try done. intros [= <-]. eauto. Qed.

Lemma string_INVALID x : (∀ s, x ≠ JsString s) → anyType z_string x = INVALID.
Proof. destruct x; try done. intros Hx. by destruct (Hx s). Qed.

Lemma enum_OK values x v :
  anyType (z_enum values) x = OK v → ∃ s, s ∈ values ∧ v = JsString s.
Proof.
  destruct x; try done. unfold anyType, transform, z_enum.
  case_decide; [| done]. intros [= <-]. eauto.
Qed.

Lemma enum_INVALID values x :
  (∀ s, x = JsString s → s ∉ values) → anyType (z_enum values) x = INVALID.
Proof.
  destruct x; try done. intros Hx. unfold anyType, transform, z_enum.
  case_decide; [| done]. by destruct (Hx s).
Qed.

Lemma nativeEnum_OK values x v :
  anyType (z_nativeEnum values) x = OK v → ∃ s, s ∈ values ∧ v = JsString s.
Proof. apply enum_OK. Qed.

Lemma nativeEnum_INVALID values x :
  (∀ s, x = JsString s → s ∉ values) → anyType (z_nativeEnum values) x = INVALID.
Proof. apply enum_INVALID. Qed.

Lemma username_OK x v :
  anyType (transform usernameSchema postgresSlugify) x = OK v →
  ∃ input u, usernameSchema input = OK u ∧ v = JsString (postgresSlugify u).
Proof.
  unfold anyType, transform.
  destruct (usernameSchema x) as [u|] eqn:Hu; [| done].
  intros [= <-]. eauto.
Qed.

End ReadFields.

(** ** What the codec reads *)

Ltac key_cases H :=
  unfold validatedKeys, stringKeys, booleanKeys, recognizedKeys in H;
  repeat (apply elem_of_cons in H as [-> | H]);
  [.. | by apply elem_of_nil in H].

Ltac key_absurd H :=
  unfold validatedKeys, stringKeys, booleanKeys, recognizedKeys in H;
  repeat (apply elem_of_cons in H as [H | H]; [discriminate H |]);
  by apply elem_of_nil in H.

Ltac strip_optional H :=
  simpl in H;
  repeat lazymatch type of H with
         | optional (optional _) _ = _ => rewrite optional_optional in H
         end;
  apply optional_defined in H; [| assumption].

Ltac validating_field :=
  simpl; repeat apply validating_optional;
  first [ apply validating_string
        | apply validating_enum
        | apply validating_nativeEnum ].

Section ReadTheorems.
Context `{S : ServerSchema} `{E : Emptiness}.
Implicit Types (router : NextRouter) (shape : ZodRawShape) (q : JsObject).

Lemma view_recognized : "view" ∈ recognizedKeys.
Proof. unfold recognizedKeys. repeat first [apply list_elem_of_here | apply list_elem_of_further]. Qed.

(** X1. Neither codec ever reads a key that is not a key of the schema,
    whatever the query holds under it. *)
Theorem read_has_no_unrecognized_key router key :
  key ∉ recognizedKeys →
  params (useModelQueryParams router) !! key = None
  ∧ params (useAppQueryParams router) !! key = None.
Proof.
  intros Hkey. split.
  - rewrite useModelQueryParams_read. apply readWith_unrecognized.
    + by rewrite modelQueryParamSchema_recognized.
    + rewrite modelQueryParamSchema_recognized. apply view_recognized.
  - rewrite useAppQueryParams_read. apply readWith_unrecognized.
    + by rewrite appQueryParamSchema_recognized.
    + rewrite appQueryParamSchema_recognized. apply view_recognized.
Qed.

(** X2. The read of either codec depends on the query only through the
    keys of the schema: two locations whose queries agree on these keys
    are read alike, whatever else the queries hold and whatever the
    paths are. *)
Theorem read_depends_on_recognized_keys router1 router2 :
  (∀ key, key ∈ recognizedKeys → query router1 !! key = query router2 !! key) →
  params (useModelQueryParams router1) = params (useModelQueryParams router2)
  ∧ params (useAppQueryParams router1) = params (useAppQueryParams router2).
Proof.
  intros Hsame. split.
  - rewrite !useModelQueryParams_read. apply readWith_same_fields.
    by rewrite modelQueryParamSchema_recognized.
  - rewrite !useAppQueryParams_read. apply readWith_same_fields.
    by rewrite appQueryParamSchema_recognized.
Qed.

(** X3. A key that the query does not have is not read either: always
    for a key other than [view], and for [view] when the parse
    succeeds (the fallback is the only source of a [view] that the
    query does not have). *)
Theorem absent_field_is_not_read router key :
  query router !! key = None →
  (key ≠ "view"
   ∨ success (safeParse modelQueryParamSchema (query router)) = true →
   params (useModelQueryParams router) !! key = None)
  ∧ (key ≠ "view"
     ∨ success (safeParse appQueryParamSchema (query router)) = true →
     params (useAppQueryParams router) !! key = None).
Proof.
  intros Habsent. split; intros Hcase.
  - rewrite useModelQueryParams_read. unfold modelQueryParamSchema in *.
    apply readWith_partial_absent; [| done | done].
    apply modelQueryParamSchema_NoDup.
  - rewrite useAppQueryParams_read. unfold appQueryParamSchema in *.
    apply readWith_partial_absent; [| done | done].
    apply appQueryParamSchema_NoDup.
Qed.

Lemma readWith_model_empty : readWith modelQueryParamSchema ∅ = ∅.
Proof. vm_compute. reflexivity. Qed.

Lemma readWith_app_empty : readWith appQueryParamSchema ∅ = ∅.
Proof. vm_compute. reflexivity. Qed.

(** X4. A query that has none of the keys of the schema (the empty
    query among them) parses, and both codecs read the empty object
    from it, not the fallback. *)
Theorem query_without_recognized_key_reads_empty router :
  (∀ key, key ∈ recognizedKeys → query router !! key = None) →
  params (useModelQueryParams router) = ∅
  ∧ params (useAppQueryParams router) = ∅.
Proof.
  intros Hnone. split.
  - rewrite useModelQueryParams_read, <- readWith_model_empty.
    apply readWith_same_fields. intros key Hkey.
    rewrite modelQueryParamSchema_recognized in Hkey.
    by rewrite lookup_empty, Hnone.
  - rewrite useAppQueryParams_read, <- readWith_app_empty.
    apply readWith_same_fields. intros key Hkey.
    rewrite appQueryParamSchema_recognized in Hkey.
    by rewrite lookup_empty, Hnone.
Qed.

(** X5. The fields [period], [sort], [query], [user], [tagname], [tag]
    and [view] are only validated: whenever the parse succeeds, a value
    that the query has under one of them is read back unchanged. *)
Theorem validated_field_is_read_unchanged router key v :
  key ∈ validatedKeys →
  query router !! key = Some v →
  (success (safeParse modelQueryParamSchema (query router)) = true →
   params (useModelQueryParams router) !! key = Some v)
  ∧ (success (safeParse appQueryParamSchema (query router)) = true →
     params (useAppQueryParams router) !! key = Some v).
Proof.
  intros Hkey Hv. key_cases Hkey.
  all: split;
    [ rewrite useModelQueryParams_read;
      eapply readWith_supplied_validating;
      [ apply modelQueryParamSchema_NoDup | reflexivity | validating_field
      | exact Hv ]
    | rewrite useAppQueryParams_read;
      eapply readWith_supplied_validating;
      [ apply appQueryParamSchema_NoDup | reflexivity | validating_field
      | exact Hv ] ].
Qed.

Ltac rejected_by_model Hv :=
  rewrite useModelQueryParams_read;
  lazymatch type of Hv with
  | _ !! ?k = _ => eapply (readWith_field_invalid _ _ k); [reflexivity |]
  end;
  simpl; destruct (getProp_lookup _ _ _ Hv) as [-> _];
  repeat (apply optional_INVALID; [assumption |]).

Ltac rejected_by_app Hv :=
  rewrite useAppQueryParams_read;
  lazymatch type of Hv with
  | _ !! ?k = _ => eapply (readWith_field_invalid _ _ k); [reflexivity |]
  end;
  simpl; destruct (getProp_lookup _ _ _ Hv) as [-> _];
  repeat (apply optional_INVALID; [assumption |]).

(** X6. A defined value of the wrong kind makes the whole read the
    fallback: a value that is not a string under [query], [user],
    [tagname] or [tag]; a value outside the two views under [view]; a
    value outside [MetricTimeframe] under [period]; and under [sort] a
    value outside [ModelSort] for the model codec, outside [AppSort]
    for the app codec. *)
Theorem rejected_field_reads_default router key v :
  query router !! key = Some v →
  v ≠ JsUndefined →
  (key ∈ stringKeys → (∀ s, v ≠ JsString s) →
   params (useModelQueryParams router) = defaultParams
   ∧ params (useAppQueryParams router) = defaultParams)
  ∧ (key = "view" → (∀ s, v = JsString s → s ∉ ["categories"; "feed"]) →
     params (useModelQueryParams router) = defaultParams
     ∧ params (useAppQueryParams router) = defaultParams)
  ∧ (key = "period" → (∀ s, v = JsString s → s ∉ MetricTimeframe) →
     params (useModelQueryParams router) = defaultParams
     ∧ params (useAppQueryParams router) = defaultParams)
  ∧ (key = "sort" → (∀ s, v = JsString s → s ∉ ModelSort) →
     params (useModelQueryParams router) = defaultParams)
  ∧ (key = "sort" → (∀ s, v = JsString s → s ∉ AppSort) →
     params (useAppQueryParams router) = defaultParams).
Proof.
  intros Hv Hdefined.
  split; [intros Hkey Hkind; key_cases Hkey |].
  1-4: split; [rejected_by_model Hv | rejected_by_app Hv];
         by apply string_INVALID.
  split; [intros -> Hkind |].
  { split; [rejected_by_model Hv | rejected_by_app Hv]; by apply enum_INVALID. }
  split; [intros -> Hkind |].
  { split; [rejected_by_model Hv | rejected_by_app Hv];
      by apply nativeEnum_INVALID. }
  split; intros -> Hkind.
  - rejected_by_model Hv. by apply nativeEnum_INVALID.
  - rejected_by_app Hv. by apply nativeEnum_INVALID.
Qed.

Lemma boolean_OK x v :
  anyType (z_preprocess
             (λ val, JsBool (strictEquals val (JsBool true)
                             || strictEquals val (JsString "true")))
             z_boolean) x = OK v →
  ∃ b, v = JsBool b.
Proof. rewrite preprocess_boolean. intros [= <-]. eauto. Qed.

Lemma typedField_of_shape shape sortValues q key v :
  NoDup shape.*1 →
  shape.*1 = recognizedKeys →
  (∀ k schema x value,
     k ∈ recognizedKeys → shapeLookup shape k = Some schema →
     schema x = OK value → value ≠ JsUndefined →
     typedField sortValues k value) →
  v ≠ JsUndefined →
  readWith shape q !! key = Some v →
  typedField sortValues key v.
Proof.
  intros Hnodup Hkeys Hfields Hdefined Hread.
  destruct (shapeLookup shape key) as [schema|] eqn:Hlookup.
  - destruct (readWith_field _ _ _ _ _ Hnodup Hlookup Hread) as [[-> ->]|Hv].
    + unfold typedField, stringKeys, booleanKeys.
      repeat split; try done; try by (intros H; key_absurd H).
      intros _. by left.
    + eapply Hfields; [| done | done | done].
      rewrite <- Hkeys.
      by apply (list_elem_of_fmap_2 fst _ (key, schema)), shapeLookup_Some.
  - apply shapeLookup_None in Hlookup.
    rewrite readWith_unrecognized in Hread; [done | done |].
    rewrite Hkeys. apply view_recognized.
Qed.

Ltac typed_conjuncts :=
  unfold typedField, stringKeys, booleanKeys;
  repeat split; try done; try by (let H := fresh in intros H; key_absurd H).

(** X7. Every defined field of a read has the kind its key declares: a
    string under [query], [user], [tagname] and [tag]; a boolean under
    [favorites] and [hidden]; one of the two views under [view]; a
    member of [MetricTimeframe] under [period]; a normalised accepted
    username under [username]; and under [sort] a member of
    [ModelSort] in the model codec, of [AppSort] in the app codec. *)
Theorem read_fields_are_typed router key v :
  v ≠ JsUndefined →
  (params (useModelQueryParams router) !! key = Some v →
   typedField ModelSort key v)
  ∧ (params (useAppQueryParams router) !! key = Some v →
     typedField AppSort key v).
Proof.
  intros Hdefined. split.
  - rewrite useModelQueryParams_read.
    apply typedField_of_shape;
      [apply modelQueryParamSchema_NoDup | reflexivity | | done].
    intros k schema x value Hk Hlookup Hvalue Hvalue_defined.
    key_cases Hk; injection Hlookup as <-; strip_optional Hvalue.
    + apply nativeEnum_OK in Hvalue. typed_conjuncts.
    + typed_conjuncts.
    + apply nativeEnum_OK in Hvalue. typed_conjuncts.
    + apply string_OK in Hvalue. typed_conjuncts.
    + apply string_OK in Hvalue. typed_conjuncts.
    + apply username_OK in Hvalue. typed_conjuncts.
    + apply string_OK in Hvalue. typed_conjuncts.
    + apply string_OK in Hvalue. typed_conjuncts.
    + apply boolean_OK in Hvalue. typed_conjuncts.
    + apply boolean_OK in Hvalue. typed_conjuncts.
    + apply enum_OK in Hvalue as (s & Hs & ->). typed_conjuncts.
      intros _. unfold z_enum in Hs.
      apply elem_of_cons in Hs as [-> | Hs]; [by left |].
      apply elem_of_cons in Hs as [-> | Hs]; [by right |].
      by apply elem_of_nil in Hs.
  - rewrite useAppQueryParams_read.
    apply typedField_of_shape;
      [apply appQueryParamSchema_NoDup | reflexivity | | done].
    intros k schema x value Hk Hlookup Hvalue Hvalue_defined.
    key_cases Hk; injection Hlookup as <-; strip_optional Hvalue.
    + apply nativeEnum_OK in Hvalue. typed_conjuncts.
    + typed_conjuncts.
    + apply nativeEnum_OK in Hvalue. typed_conjuncts.
    + apply string_OK in Hvalue. typed_conjuncts.
    + apply string_OK in Hvalue. typed_conjuncts.
    + apply username_OK in Hvalue. typed_conjuncts.
    + apply string_OK in Hvalue. typed_conjuncts.
    + apply string_OK in Hvalue. typed_conjuncts.
    + apply boolean_OK in Hvalue. typed_conjuncts.
    + apply boolean_OK in Hvalue. typed_conjuncts.
    + apply enum_OK in Hvalue as (s & Hs & ->). typed_conjuncts.
      intros _.
      apply elem_of_cons in Hs as [-> | Hs]; [by left |].
      apply elem_of_cons in Hs as [-> | Hs]; [by right |].
      by apply elem_of_nil in Hs.
Qed.

Lemma getProp_same q1 q2 key :
  q1 !! key = q2 !! key →
  getProp q1 key = getProp q2 key ∧ hasProp q1 key = hasProp q2 key.
Proof. unfold getProp, hasProp. by intros ->. Qed.

(** A field whose schema accepts everything has no influence on the
    success of the parse nor on what is read under the other keys. *)
Lemma readWith_total_field shape q1 q2 key schema :
  NoDup shape.*1 →
  shapeLookup shape key = Some schema →
  (∀ x, schema x ≠ INVALID) →
  (∀ k, k ≠ key → q1 !! k = q2 !! k) →
  success (safeParse shape q1) = success (safeParse shape q2)
  ∧ ∀ k, k ≠ key → readWith shape q1 !! k = readWith shape q2 !! k.
Proof.
  intros Hnodup Hlookup Htotal Hsame.
  assert (success (safeParse shape q1) = success (safeParse shape q2)) as Hsuccess.
  { apply safeParse_success_same. intros [k s] Hin. simpl.
    destruct (decide (k = key)) as [->|Hk].
    - rewrite (shapeLookup_elem_of _ _ _ Hnodup Hin) in Hlookup.
      injection Hlookup as ->. split; intros H; by apply Htotal in H.
    - by destruct (getProp_same _ _ _ (Hsame k Hk)) as [-> _]. }
  split; [done |]. intros k Hk. unfold readWith.
  destruct (safeParse shape q1) as [parsed1|] eqn:H1,
           (safeParse shape q2) as [parsed2|] eqn:H2; try done.
  destruct (getProp_same _ _ _ (Hsame k Hk)) as [Hget Hhas].
  destruct (shapeLookup shape k) as [s|] eqn:Hs.
  - apply shapeLookup_Some in Hs.
    destruct (safeParse_lookup _ _ _ _ _ Hnodup Hs H1) as (v1 & Hv1 & ->).
    destruct (safeParse_lookup _ _ _ _ _ Hnodup Hs H2) as (v2 & Hv2 & ->).
    rewrite Hget, Hv2 in Hv1. injection Hv1 as ->. by rewrite Hhas.
  - apply shapeLookup_None in Hs.
    by rewrite (safeParse_strip _ _ _ _ Hs H1), (safeParse_strip _ _ _ _ Hs H2).
Qed.

Lemma optional_boolean_total x :
  optional
    (anyType (z_preprocess
                (λ val, JsBool (strictEquals val (JsBool true)
                                || strictEquals val (JsString "true")))
                z_boolean)) x ≠ INVALID.
Proof. by destruct x as [| |[]|n|s|xs]. Qed.

(** X8. Whatever the query holds under [favorites] or under [hidden]
    never makes the read the fallback and never changes what is read
    under another key: two queries that differ only under one of these
    keys parse or fail together and are read alike under every other
    key, in both codecs. *)
Theorem boolean_field_never_affects_the_rest router1 router2 key :
  key ∈ booleanKeys →
  (∀ k, k ≠ key → query router1 !! k = query router2 !! k) →
  (success (safeParse modelQueryParamSchema (query router1))
     = success (safeParse modelQueryParamSchema (query router2))
   ∧ ∀ k, k ≠ key →
       params (useModelQueryParams router1) !! k
         = params (useModelQueryParams router2) !! k)
  ∧ (success (safeParse appQueryParamSchema (query router1))
       = success (safeParse appQueryParamSchema (query router2))
     ∧ ∀ k, k ≠ key →
         params (useAppQueryParams router1) !! k
           = params (useAppQueryParams router2) !! k).
Proof.
  intros Hkey Hsame. key_cases Hkey.
  all: split;
    [ rewrite !useModelQueryParams_read;
      eapply readWith_total_field;
      [ apply modelQueryParamSchema_NoDup | reflexivity | | exact Hsame ];
      simpl; apply optional_boolean_total
    | rewrite !useAppQueryParams_read;
      eapply readWith_total_field;
      [ apply appQueryParamSchema_NoDup | reflexivity | | exact Hsame ];
      simpl; intros x; rewrite optional_optional;
      apply optional_boolean_total ].
Qed.

End ReadTheorems.

(** ** The setter, continued *)

Section SetTheorems.
Context `{S : ServerSchema} `{E : Emptiness}.
Implicit Types (router : NextRouter) (filters : JsObject).

Lemma removeEmpty_spread_compose (current f g : JsObject) :
  removeEmpty (objectSpread (removeEmpty (objectSpread current f)) g)
  = removeEmpty (objectSpread current (objectSpread f g)).
Proof.
  apply map_eq. intros key.
  rewrite !removeEmpty_spread_lookup. unfold mergedField.
  rewrite removeEmpty_spread_lookup. unfold mergedField, objectSpread.
  rewrite lookup_union.
  destruct (g !! key) as [vg|], (f !! key) as [vf|]; simpl; try done.
  - by destruct (isEmpty vf) eqn:Hvf; [| rewrite Hvf].
  - destruct (current !! key) as [vc|]; [| done].
    by destruct (isEmpty vc) eqn:Hvc; [| rewrite Hvc].
Qed.

Lemma removeEmpty_noEmptyValue (obj : JsObject) : noEmptyValue (removeEmpty obj).
Proof.
  intros key v. rewrite removeEmpty_lookup.
  destruct (obj !! key) as [w|]; [| done].
  destruct (isEmpty w) eqn:Hw; [done |]. by intros [= <-].
Qed.

Lemma removeEmpty_fixed (obj : JsObject) :
  removeEmpty obj = obj ↔ noEmptyValue obj.
Proof.
  split.
  - intros <-. apply removeEmpty_noEmptyValue.
  - intros Hno. apply map_eq. intros key. rewrite removeEmpty_lookup.
    destruct (obj !! key) as [w|] eqn:Hw; [| done].
    by rewrite (Hno _ _ Hw).
Qed.

Lemma objectSpread_empty (obj : JsObject) : objectSpread obj ∅ = obj.
Proof. unfold objectSpread. apply (left_id_L ∅ (∪)). Qed.

Lemma router_eq router1 router2 :
  pathname router1 = pathname router2 → query router1 = query router2 →
  router1 = router2.
Proof. destruct router1, router2. simpl. by intros -> ->. Qed.

(** X9. Two updates in a row amount to one: setting [f] and then, with
    the setter of the next render, [g] gives the location that setting
    the merge of [g] over [f] gives at once, in both codecs. *)
Theorem set_composes router f g :
  (let once := set (useModelQueryParams router) f router in
   set (useModelQueryParams once) g once
   = set (useModelQueryParams router) (objectSpread f g) router)
  ∧ (let once := set (useAppQueryParams router) f router in
     set (useAppQueryParams once) g once
     = set (useAppQueryParams router) (objectSpread f g) router).
Proof.
  split; cbv zeta; unfold useModelQueryParams, useAppQueryParams, replace;
    cbn [set pathname query url_pathname url_query];
    by rewrite removeEmpty_spread_compose.
Qed.


(** X11. The empty update leaves a location as it is exactly when the
    query of the location holds no empty value; otherwise it drops the
    empty fields. *)
Theorem set_empty_update_fixes router :
  (set (useModelQueryParams router) ∅ router = router
   ↔ noEmptyValue (query router))
  ∧ (set (useAppQueryParams router) ∅ router = router
     ↔ noEmptyValue (query router)).
Proof.
  assert (mkNextRouter (pathname router) (removeEmpty (query router)) = router
          ↔ noEmptyValue (query router)) as Hfixed.
  { rewrite <- removeEmpty_fixed. split.
    - intros Heq. by rewrite <- Heq at 2.
    - intros Heq. by apply router_eq. }
  split; unfold useModelQueryParams, useAppQueryParams, replace;
    cbn [set pathname query url_pathname url_query];
    by rewrite objectSpread_empty.
Qed.

Lemma set_single_lookup (current : JsObject) key v :
  removeEmpty (objectSpread current {[ key := v ]}) !! key
  = if isEmpty v then None else Some v.
Proof.
  rewrite removeEmpty_spread_lookup. unfold mergedField.
  by rewrite lookup_singleton_eq.
Qed.

(** X12. Writing and then reading: after the setter has written one
    key, the read of the next render has no field under that key when
    the written value is empty (for a key other than [view]), and has
    exactly the written value under it when the value is not empty,
    the key is one of the validated keys and the new query parses. *)
Theorem set_then_read router key v :
  (let once := set (useModelQueryParams router) {[ key := v ]} router in
   (isEmpty v = true → key ≠ "view" →
    params (useModelQueryParams once) !! key = None)
   ∧ (isEmpty v = false → key ∈ validatedKeys →
      success (safeParse modelQueryParamSchema (query once)) = true →
      params (useModelQueryParams once) !! key = Some v))
  ∧ (let once := set (useAppQueryParams router) {[ key := v ]} router in
     (isEmpty v = true → key ≠ "view" →
      params (useAppQueryParams once) !! key = None)
     ∧ (isEmpty v = false → key ∈ validatedKeys →
        success (safeParse appQueryParamSchema (query once)) = true →
        params (useAppQueryParams once) !! key = Some v)).
Proof.
  pose proof (set_single_lookup (query router) key v) as Hwritten.
  split; cbv zeta; split.
  - intros Hempty Hview. rewrite Hempty in Hwritten.
    rewrite useModelQueryParams_read. unfold modelQueryParamSchema.
    apply readWith_partial_absent;
      [apply modelQueryParamSchema_NoDup | exact Hwritten | by left].
  - intros Hfull Hkey. rewrite Hfull in Hwritten.
    rewrite useModelQueryParams_read. key_cases Hkey.
    all: eapply readWith_supplied_validating;
      [ apply modelQueryParamSchema_NoDup | reflexivity | validating_field
      | exact Hwritten ].
  - intros Hempty Hview. rewrite Hempty in Hwritten.
    rewrite useAppQueryParams_read. unfold appQueryParamSchema.
    apply readWith_partial_absent;
      [apply appQueryParamSchema_NoDup | exact Hwritten | by left].
  - intros Hfull Hkey. rewrite Hfull in Hwritten.
    rewrite useAppQueryParams_read. key_cases Hkey.
    all: eapply readWith_supplied_validating;
      [ apply appQueryParamSchema_NoDup | reflexivity | validating_field
      | exact Hwritten ].
Qed.

End SetTheorems.

(** ** The fetch hooks, continued *)

Section HookTheorems.

Lemma concat_pageItems_elem_of {Item : Type} (ps : list (PageSlot Item)) x :
  x ∈ concat (pageItems <$> ps)
  ↔ ∃ page, PageLoaded page ∈ ps ∧ x ∈ items page.
Proof.
  induction ps as [|slot ps IH]; simpl.
  - split; [by intros ?%elem_of_nil |]. by intros (? & ?%elem_of_nil & _).
  - rewrite elem_of_app, IH. split.
    + intros [Hx | (page & Hpage & Hx)].
      * destruct slot as [| |page]; simpl in Hx; try by apply elem_of_nil in Hx.
        exists page. split; [apply list_elem_of_here | done].
      * exists page. split; [by apply list_elem_of_further | done].
    + intros (page & [<- | Hpage]%elem_of_cons & Hx); [by left |].
      right. eauto.
Qed.

Lemma concat_pageItems_length {Item : Type} (ps : list (PageSlot Item)) :
  length (concat (pageItems <$> ps))
  = sum_list ((λ slot, length (pageItems slot)) <$> ps).
Proof.
  induction ps as [|slot ps IH]; simpl; [done |].
  rewrite length_app. f_equal. apply IH.
Qed.

Lemma concat_pageItems_nil {Item : Type} (ps : list (PageSlot Item)) :
  concat (pageItems <$> ps) = []
  ↔ ∀ page, PageLoaded page ∈ ps → items page = [].
Proof.
  induction ps as [|slot ps IH]; simpl.
  - split; [| done]. by intros _ page ?%elem_of_nil.
  - split.
    + intros [Hslot Hrest]%app_eq_nil page [<- | Hpage]%elem_of_cons; [done |].
      by apply IH.
    + intros Hall. apply app_nil. split.
      * destruct slot as [| |page]; try done.
        apply Hall, list_elem_of_here.
      * apply IH. intros page Hpage. by apply Hall, list_elem_of_further.
Qed.

Lemma extends_with_page_of_flat (hook : FetchHook) :
  (∀ (Item Rest : Type) client filters opts d,
     hook_data (hook Item Rest client filters opts) = Some d →
     hook_models (hook Item Rest client filters opts)
     = concat (pageItems <$> pages d)) →
  ExtendsWithPage hook.
Proof.
  intros Hflat Item Rest client1 client2 filters opts d1 d2 slot r1 r2 Hd1 Hd2.
  unfold r1, r2. rewrite (Hflat _ _ _ _ _ _ Hd1), (Hflat _ _ _ _ _ _ Hd2).
  split; intros ->.
  - rewrite fmap_app, concat_app. simpl. by rewrite app_nil_r.
  - reflexivity.
Qed.

Lemma has_the_pages_items_of_flat (hook : FetchHook) :
  (∀ (Item Rest : Type) client filters opts d,
     hook_data (hook Item Rest client filters opts) = Some d →
     hook_models (hook Item Rest client filters opts)
     = concat (pageItems <$> pages d)) →
  HasThePagesItems hook.
Proof.
  intros Hflat Item Rest client filters opts d r Hd.
  unfold r. rewrite (Hflat _ _ _ _ _ _ Hd).
  split; [intros x; apply concat_pageItems_elem_of |].
  split; [apply concat_pageItems_length | apply concat_pageItems_nil].
Qed.

Ltac hook_is_flat :=
  intros Item Rest client filters opts d; hook_unfold; intros ->;
  apply flatMap_pageItems.

(** X13. [useQueryApps] and [useQueryModelsOnly] are [useQueryModels]
    aimed at another procedure: each makes the call of
    [useQueryModels] but for the procedure, and returns the data, the
    flattened list and the status that [useQueryModels] returns from a
    client sending every call to that procedure. *)
Theorem fetch_hooks_differ_only_in_procedure :
  IsQueryModelsAt model_getAll (@useQueryModels)
  ∧ IsQueryModelsAt model_getAllAppsOnly (@useQueryApps)
  ∧ IsQueryModelsAt model_getAllModelsOnly (@useQueryModelsOnly).
Proof. repeat split. Qed.

(** X14. When one more page is loaded at the end, the flattened list
    of each hook is the former list followed by the items of that page,
    so the items already shown keep their positions; a page loaded at
    the front puts its items before the former list. *)
Theorem fetch_hooks_extend_with_page :
  ExtendsWithPage (@useQueryModels)
  ∧ ExtendsWithPage (@useQueryApps)
  ∧ ExtendsWithPage (@useQueryModelsOnly).
Proof. split; [| split]; apply extends_with_page_of_flat; hook_is_flat. Qed.

(** X15. The flattened list of each hook has exactly the items of the
    loaded pages, each as often as the pages have it (nothing is
    dropped, added or deduplicated): its length is the sum of the pages'
    lengths, and it is empty exactly when every loaded page is. *)
Theorem fetch_hooks_models_are_the_pages_items :
  HasThePagesItems (@useQueryModels)
  ∧ HasThePagesItems (@useQueryApps)
  ∧ HasThePagesItems (@useQueryModelsOnly).
Proof. split; [| split]; apply has_the_pages_items_of_flat; hook_is_flat. Qed.

End HookTheorems.

(** * The further properties on concrete inputs *)

Lemma read_has_no_unrecognized_key_witness :
  params (@useModelQueryParams sampleSchema sampleEmptiness
            (sampleRouter mixedQuery)) !! "utm_source" = None
  ∧ params (@useAppQueryParams sampleSchema sampleEmptiness
              (sampleRouter mixedQuery)) !! "utm_source" = None.
Proof.
  apply (@read_has_no_unrecognized_key sampleSchema sampleEmptiness
           (sampleRouter mixedQuery) "utm_source").
  intros Hkey. key_absurd Hkey.
Defined.

Lemma read_depends_on_recognized_keys_witness :
  params (@useModelQueryParams sampleSchema sampleEmptiness
            (sampleRouter mixedQuery))
    = params (@useModelQueryParams sampleSchema sampleEmptiness strippedRouter)
  ∧ params (@useAppQueryParams sampleSchema sampleEmptiness
              (sampleRouter mixedQuery))
      = params (@useAppQueryParams sampleSchema sampleEmptiness strippedRouter).
Proof.
  apply (@read_depends_on_recognized_keys sampleSchema sampleEmptiness
           (sampleRouter mixedQuery) strippedRouter).
  intros key Hkey. key_cases Hkey; reflexivity.
Defined.

Lemma absent_field_is_not_read_witness :
  params (@useModelQueryParams sampleSchema sampleEmptiness
            (sampleRouter mixedQuery)) !! "tag" = None
  ∧ params (@useAppQueryParams sampleSchema sampleEmptiness
              (sampleRouter mixedQuery)) !! "view" = None.
Proof.
  split.
  - destruct (@absent_field_is_not_read sampleSchema sampleEmptiness
                (sampleRouter mixedQuery) "tag") as (Hmodel & _); [reflexivity |].
    apply Hmodel. left. discriminate.
  - destruct (@absent_field_is_not_read sampleSchema sampleEmptiness
                (sampleRouter mixedQuery) "view") as (_ & Happ); [reflexivity |].
    apply Happ. right. vm_compute. reflexivity.
Defined.

Lemma query_without_recognized_key_reads_empty_witness :
  params (@useModelQueryParams sampleSchema sampleEmptiness
            (sampleRouter foreignQuery)) = ∅
  ∧ params (@useAppQueryParams sampleSchema sampleEmptiness
              (sampleRouter foreignQuery)) = ∅.
Proof.
  apply (@query_without_recognized_key_reads_empty sampleSchema sampleEmptiness
           (sampleRouter foreignQuery)).
  intros key Hkey. key_cases Hkey; reflexivity.
Defined.

Lemma validated_field_is_read_unchanged_witness :
  params (@useModelQueryParams sampleSchema sampleEmptiness
            (sampleRouter mixedQuery)) !! "query" = Some (JsString "cat")
  ∧ params (@useAppQueryParams sampleSchema sampleEmptiness
              (sampleRouter mixedQuery)) !! "sort" = Some (JsString "Newest").
Proof.
  split.
  - destruct (@validated_field_is_read_unchanged sampleSchema sampleEmptiness
                (sampleRouter mixedQuery) "query" (JsString "cat"))
      as (Hmodel & _).
    + unfold validatedKeys.
      repeat first [apply list_elem_of_here | apply list_elem_of_further].
    + reflexivity.
    + apply Hmodel. vm_compute. reflexivity.
  - destruct (@validated_field_is_read_unchanged sampleSchema sampleEmptiness
                (sampleRouter mixedQuery) "sort" (JsString "Newest"))
      as (_ & Happ).
    + unfold validatedKeys.
      repeat first [apply list_elem_of_here | apply list_elem_of_further].
    + reflexivity.
    + apply Happ. vm_compute. reflexivity.
Defined.

Lemma rejected_field_reads_default_witness :
  params (@useModelQueryParams sampleSchema sampleEmptiness
            (sampleRouter appOnlySortQuery)) = defaultParams
  ∧ params (@useAppQueryParams sampleSchema sampleEmptiness
              (sampleRouter invalidSortQuery)) = defaultParams.
Proof.
  split.
  - destruct (@rejected_field_reads_default sampleSchema sampleEmptiness
                (sampleRouter appOnlySortQuery) "sort" (JsString "Oldest"))
      as (_ & _ & _ & Hmodel & _); [reflexivity | discriminate |].
    apply Hmodel; [reflexivity |].
    intros s [= <-] Hin. simpl in Hin. key_absurd Hin.
  - destruct (@rejected_field_reads_default sampleSchema sampleEmptiness
                (sampleRouter invalidSortQuery) "sort" (JsString "bogus"))
      as (_ & _ & _ & _ & Happ); [reflexivity | discriminate |].
    apply Happ; [reflexivity |].
    intros s [= <-] Hin. simpl in Hin. key_absurd Hin.
Defined.

Lemma read_fields_are_typed_witness :
  @typedField sampleSchema (@ModelSort sampleSchema) "sort" (JsString "Newest")
  ∧ @typedField sampleSchema (@AppSort sampleSchema) "username"
      (JsString "some_user_1").
Proof.
  split.
  - apply (@read_fields_are_typed sampleSchema sampleEmptiness
             (sampleRouter commonSortQuery) "sort" (JsString "Newest"));
      [discriminate | vm_compute; reflexivity].
  - apply (@read_fields_are_typed sampleSchema sampleEmptiness
             (sampleRouter commonSortQuery) "username" (JsString "some_user_1"));
      [discriminate | vm_compute; reflexivity].
Defined.

Lemma boolean_field_never_affects_the_rest_witness :
  success (safeParse (@appQueryParamSchema sampleSchema) arrayFavoritesQuery)
    = success (safeParse (@appQueryParamSchema sampleSchema) booleanQuery)
  ∧ params (@useModelQueryParams sampleSchema sampleEmptiness
              (sampleRouter arrayFavoritesQuery)) !! "hidden"
    = params (@useModelQueryParams sampleSchema sampleEmptiness
                (sampleRouter booleanQuery)) !! "hidden".
Proof.
  destruct (@boolean_field_never_affects_the_rest sampleSchema sampleEmptiness
              (sampleRouter arrayFavoritesQuery) (sampleRouter booleanQuery)
              "favorites") as ((_ & Hmodel) & (Happ & _)).
  - unfold booleanKeys. apply list_elem_of_here.
  - intros k Hk. unfold arrayFavoritesQuery. simpl.
    rewrite lookup_insert_ne; [reflexivity | congruence].
  - split; [exact Happ | apply Hmodel; discriminate].
Defined.


Lemma set_empty_update_fixes_witness :
  set (@useModelQueryParams sampleSchema sampleEmptiness (sampleRouter mixedQuery))
      ∅ (sampleRouter mixedQuery)
    = sampleRouter mixedQuery
  ∧ set (@useAppQueryParams sampleSchema sampleEmptiness (sampleRouter mixedQuery))
        ∅ (sampleRouter mixedQuery)
      = sampleRouter mixedQuery.
Proof.
  assert (@noEmptyValue sampleEmptiness (query (sampleRouter mixedQuery))) as Hno.
  { intros key v Hkv. simpl in Hkv. unfold mixedQuery in Hkv.
    apply lookup_insert_Some in Hkv as [[_ <-] | [_ Hkv]]; [reflexivity |].
    apply lookup_insert_Some in Hkv as [[_ <-] | [_ Hkv]]; [reflexivity |].
    apply lookup_singleton_Some in Hkv as [_ <-]. reflexivity. }
  destruct (@set_empty_update_fixes sampleSchema sampleEmptiness
              (sampleRouter mixedQuery)) as (Hmodel & Happ).
  split; [by apply Hmodel | by apply Happ].
Defined.

Lemma set_then_read_witness :
  params (@useModelQueryParams sampleSchema sampleEmptiness
            (set (@useModelQueryParams sampleSchema sampleEmptiness
                    (sampleRouter mixedQuery))
                 {[ "query" := JsUndefined ]} (sampleRouter mixedQuery)))
    !! "query" = None
  ∧ params (@useAppQueryParams sampleSchema sampleEmptiness
              (set (@useAppQueryParams sampleSchema sampleEmptiness
                      (sampleRouter mixedQuery))
                   {[ "tag" := JsString "anime" ]} (sampleRouter mixedQuery)))
      !! "tag" = Some (JsString "anime").
Proof.
  split.
  - destruct (@set_then_read sampleSchema sampleEmptiness
                (sampleRouter mixedQuery) "query" JsUndefined)
      as ((Hclear & _) & _).
    apply Hclear; [reflexivity | discriminate].
  - destruct (@set_then_read sampleSchema sampleEmptiness
                (sampleRouter mixedQuery) "tag" (JsString "anime"))
      as (_ & (_ & Hwrite)).
    apply Hwrite; [reflexivity | | vm_compute; reflexivity].
    unfold validatedKeys.
    repeat first [apply list_elem_of_here | apply list_elem_of_further].
Defined.

Lemma fetch_hooks_extend_with_page_witness :
  hook_models (useQueryModels (clientWithPages (cursorPages ++ [nextPage]))
                              None None)
    = hook_models (useQueryModels (clientWithPages cursorPages) None None)
      ++ [4; 5]%Z
  ∧ hook_models (useQueryApps (clientWithPages (previousPage :: cursorPages))
                              None None)
      = [0]%Z ++ hook_models (useQueryApps (clientWithPages cursorPages) None None)
  ∧ hook_models (useQueryModelsOnly (clientWithPages (cursorPages ++ [nextPage]))
                                    None None)
      = hook_models (useQueryModelsOnly (clientWithPages cursorPages) None None)
        ++ [4; 5]%Z.
Proof.
  destruct fetch_hooks_extend_with_page as (Hmodels & Happs & Honly).
  split; [| split].
  - apply (Hmodels Z unit (clientWithPages cursorPages)
             (clientWithPages (cursorPages ++ [nextPage])) None None
             (mkInfiniteData cursorPages [])
             (mkInfiniteData (cursorPages ++ [nextPage]) []) nextPage);
      reflexivity.
  - apply (Happs Z unit (clientWithPages cursorPages)
             (clientWithPages (previousPage :: cursorPages)) None None
             (mkInfiniteData cursorPages [])
             (mkInfiniteData (previousPage :: cursorPages) []) previousPage);
      reflexivity.
  - apply (Honly Z unit (clientWithPages cursorPages)
             (clientWithPages (cursorPages ++ [nextPage])) None None
             (mkInfiniteData cursorPages [])
             (mkInfiniteData (cursorPages ++ [nextPage]) []) nextPage);
      reflexivity.
Defined.

Lemma fetch_hooks_models_are_the_pages_items_witness :
  length (hook_models (useQueryModels sampleClient None None)) = 3
  ∧ 3%Z ∈ hook_models (useQueryApps sampleClient None None)
  ∧ hook_models (useQueryModelsOnly (clientWithPages [PageUndefined; PageNull])
                                    None None) = ([] : list Z).
Proof.
  destruct fetch_hooks_models_are_the_pages_items as (Hmodels & Happs & Honly).
  split; [| split].
  - destruct (Hmodels Z unit sampleClient None None
                (mkInfiniteData examplePages [])) as (_ & Hlength & _);
      [reflexivity |].
    exact Hlength.
  - destruct (Happs Z unit sampleClient None None
                (mkInfiniteData examplePages [])) as (Hin & _);
      [reflexivity |].
    apply Hin. exists (mkPage [3]%Z JsUndefined). split.
    + unfold examplePages.
      repeat first [apply list_elem_of_here | apply list_elem_of_further].
    + apply list_elem_of_here.
  - destruct (Honly Z unit (clientWithPages [PageUndefined; PageNull]) None None
                (mkInfiniteData [PageUndefined; PageNull] []))
      as (_ & _ & Hnil); [reflexivity |].
    apply Hnil. intros page Hpage.
    apply elem_of_cons in Hpage as [Hpage | Hpage]; [discriminate Hpage |].
    apply elem_of_cons in Hpage as [Hpage | Hpage]; [discriminate Hpage |].
    by apply elem_of_nil in Hpage.
Defined.
